(** * GoodForm 0.5: the validation engine of [good_form.js]

    A shallow embedding of the engine of [src/good_form.js]: the two rule
    registries ([GoodForm.local], [GoodForm.remote]), the dispatcher
    ([GoodForm.Validate.Queue]), the entry points ([Validate.Name],
    [Validate.All], [Validate.Local]), the batch coordinator
    ([Validate.Remote], [Validate.Run]) and the presenter hook
    ([Validate.Effect], [Helpers.parseResponse]).

    JavaScript values are an inductive type with their coercions written out
    (truthiness, [ToString], [==] against [undefined] and against the empty
    string); objects used as maps keep their insertion order; the globals of
    [GoodForm] are one explicit state threaded through a state-and-exception
    monad; the DOM and the transport are a [Host] record. *)

From Stdlib Require Import String Ascii List ZArith Bool Lia DecimalString.
Import ListNotations.
Local Open Scope string_scope.
Local Open Scope list_scope.
Set Warnings "-register-all".

(** ** JavaScript values *)
Module Js.

(** Numbers are integers here: the engine itself only ever produces lengths
    and indices.  Arrays are JavaScript arrays; [VObj] is any other object
    (its own properties are never read by the engine). *)
Inductive jsval : Type :=
| VUndef
| VNull
| VBool (b : bool)
| VNum (n : Z)
| VStr (s : string)
| VArr (l : list jsval)
| VObj.

(** [ToBoolean]: what [if (x)], [!x], [x || y] and [x && y] test. *)
Definition truthy (v : jsval) : bool :=
  match v with
  | VUndef | VNull => false
  | VBool b => b
  | VNum n => negb (n =? 0)%Z
  | VStr s => negb (s =? "")
  | VArr _ | VObj => true
  end.

(** [a || b] and [a && b] return one of their operands. *)
Definition js_or (a b : jsval) : jsval := if truthy a then a else b.
Definition js_and (a b : jsval) : jsval := if truthy a then b else a.

(** [x === true], the test [switch (true)] applies to each [case]. *)
Definition strict_true (v : jsval) : bool :=
  match v with VBool true => true | _ => false end.

(** [x == undefined]: true of [undefined] and of [null], of nothing else. *)
Definition eq_undefined (v : jsval) : bool :=
  match v with VUndef | VNull => true | _ => false end.

Definition string_of_Z (n : Z) : string := NilZero.string_of_int (Z.to_int n).

Fixpoint join_strings (sep : string) (l : list string) : string :=
  match l with
  | [] => ""
  | [s] => s
  | s :: rest => s ++ sep ++ join_strings sep rest
  end.

(** [ToString].  An array prints as its elements joined by commas, where
    [null] and [undefined] elements print as the empty string. *)
Fixpoint toString (v : jsval) : string :=
  match v with
  | VUndef => "undefined"
  | VNull => "null"
  | VBool true => "true"
  | VBool false => "false"
  | VNum n => string_of_Z n
  | VStr s => s
  | VArr l =>
      join_strings ","
        ((fix elems (l : list jsval) : list string :=
            match l with
            | [] => []
            | x :: r => (if eq_undefined x then "" else toString x) :: elems r
            end) l)
  | VObj => "[object Object]"
  end.

(** [Array.prototype.join(sep)]. *)
Definition join (sep : string) (l : list jsval) : string :=
  join_strings sep (map (fun x => if eq_undefined x then "" else toString x) l).

(** [x == ""]: a string is compared as it is, a number or boolean through
    [ToNumber] (the empty string is [0]), an array through [ToString]. *)
Definition eq_empty_string (v : jsval) : bool :=
  match v with
  | VUndef | VNull | VObj => false
  | VBool b => negb b
  | VNum n => (n =? 0)%Z
  | VStr s => s =? ""
  | VArr _ => toString v =? ""
  end.

(** The class [\s] of a regular expression, on the code units below 256:
    tab, line feed, vertical tab, form feed, carriage return, space and the
    no-break space. *)
Definition is_space (c : ascii) : bool :=
  let n := nat_of_ascii c in
  ((9 <=? n)%nat && (n <=? 13)%nat) || (n =? 32)%nat || (n =? 160)%nat.

(** [/^\s*$/.test(s)]. *)
Fixpoint blank (s : string) : bool :=
  match s with
  | EmptyString => true
  | String c r => is_space c && blank r
  end.

(** [s.replace(/%d/g, rep)]. *)
Fixpoint replace_pct_d (rep s : string) : string :=
  match s with
  | EmptyString => EmptyString
  | String c r =>
      match r with
      | String d r' =>
          if ((c =? "%")%char && (d =? "d")%char)%bool
          then rep ++ replace_pct_d rep r'
          else String c (replace_pct_d rep r)
      | EmptyString => String c EmptyString
      end
  end.

(** [[].concat(x)]: an array stays, anything else becomes a singleton. *)
Definition to_array (v : jsval) : list jsval :=
  match v with VArr l => l | _ => [v] end.

End Js.
Import Js.

(** ** Objects used as maps

    [GoodForm.local], [GoodForm.remote], [Validate.queue], [Validate.response]
    and [GoodForm.validMessages] are plain objects keyed by field name, and
    the engine enumerates them with [for (name in o)]: their keys are kept in
    insertion order, and assigning to a key that exists keeps its place.
    (Field names are not array indices, which an engine would list first.) *)
Module JsObj.

Definition t (V : Type) : Type := list (string * V).

Fixpoint get {V} (o : t V) (k : string) : option V :=
  match o with
  | [] => None
  | (k', v) :: r => if k =? k' then Some v else get r k
  end.

Fixpoint set {V} (o : t V) (k : string) (v : V) : t V :=
  match o with
  | [] => [(k, v)]
  | (k', v') :: r => if k =? k' then (k', v) :: r else (k', v') :: set r k v
  end.

Definition keys {V} (o : t V) : list string := map fst o.

(** [o[k]] on an object of values: a missing key reads as [undefined]. *)
Definition read (o : t jsval) (k : string) : jsval :=
  match get o k with Some v => v | None => VUndef end.

End JsObj.

(** ** Calls that return or throw *)
Inductive outcome (A : Type) : Type :=
| Ret (a : A)
| Throw.
Arguments Ret {A} a.
Arguments Throw {A}.

(** ** Rules

    A rule is the object [new GoodForm.Validation(...)] builds: every option
    of the configuration object copied onto it, then the methods its kind
    adds.  The options the engine and the modelled kinds read are the fields
    of [Options]; an absent option is [None] ([undefined] for the two flags,
    which may hold any value). *)

(** A conditional guard, [options["if"]] or [options.unless]: a function of
    the field name, or [Validate.Local] itself as the file's header passes it
    ([Validates.Ajax("email", { "if": Validate.Local })]). *)
Inductive Cond : Type :=
| CondFn (f : string -> outcome jsval)
| CondLocal.

Record Options : Type := mkOptions {
  message : option string;
  allowBlank : jsval;
  allowNull : jsval;
  opt_if : option Cond;                 (* options["if"] *)
  unless : option Cond;
  opt_with : option (string -> bool);   (* options["with"], a RegExp: its test *)
  withOption : option (string -> bool);
  within : option (list Z);
  opt_in : option (list Z);             (* options["in"] *)
  inOption : option (list Z);
  minimum : option Z;
  maximum : option Z;
  opt_is : option Z;                    (* options.is *)
  tooLong : option string;
  tooShort : option string;
  wrongLength : option string;
  include : list string
}.

(** The empty configuration object [{}]. *)
Definition no_options : Options :=
  mkOptions None VUndef VUndef None None None None None None None
            None None None None None None [].

Definition set_message (m : option string) (o : Options) : Options :=
  mkOptions m (allowBlank o) (allowNull o) (opt_if o) (unless o) (opt_with o)
            (withOption o) (within o) (opt_in o) (inOption o) (minimum o)
            (maximum o) (opt_is o) (tooLong o) (tooShort o) (wrongLength o)
            (include o).

Definition set_in (r : option (list Z)) (o : Options) : Options :=
  mkOptions (message o) (allowBlank o) (allowNull o) (opt_if o) (unless o)
            (opt_with o) (withOption o) (within o) r (inOption o) (minimum o)
            (maximum o) (opt_is o) (tooLong o) (tooShort o) (wrongLength o)
            (include o).

Definition set_bounds (lo hi : option Z) (o : Options) : Options :=
  mkOptions (message o) (allowBlank o) (allowNull o) (opt_if o) (unless o)
            (opt_with o) (withOption o) (within o) (opt_in o) (inOption o) lo
            hi (opt_is o) (tooLong o) (tooShort o) (wrongLength o) (include o).

(** The rule object, [this] of [GoodForm.Validation].  [validate] is the
    predicate a local kind assigns after construction, [pushParameters] the
    method [Validates.Ajax] assigns (its closure is determined by the rule's
    [include]); a method that was never assigned is [undefined], and calling
    it throws. *)
Record Rule : Type := mkRule {
  props : Options;
  validate : option (jsval -> outcome jsval);
  pushParameters : bool
}.

(** [GoodForm.defaultErrorMessages]. *)
Definition defaultErrorMessages : JsObj.t string :=
  [ ("inclusion", "is not included in the list");
    ("exclusion", "is reserved");
    ("invalid", "is invalid");
    ("confirmation", "doesn't match");
    ("accepted", "must be accepted");
    ("empty", "can't be empty");
    ("blank", "can't be blank");
    ("tooLong", "is too long (maximum is %d characters)");
    ("tooShort", "is too short (minimum is %d characters)");
    ("wrongLength", "is the wrong length (should be %d characters)");
    ("taken", "has already been taken");
    ("notANumber", "is not a number");
    ("greaterThan", "must be greater than %d");
    ("greaterThanOrEqualTo", "must be greater than or equal to %d");
    ("equalTo", "must be equal to %d");
    ("lessThan", "must be less than %d");
    ("lessThanOrEqualTo", "must be less than or equal to %d");
    ("odd", "must be odd");
    ("even", "must be even") ].

(** A string-valued property that may be absent, read as a value. *)
Definition of_opt (m : option string) : jsval :=
  match m with Some s => VStr s | None => VUndef end.

(** ** Presenter statuses and the trace of observable calls *)

(** The three strings [Helpers.parseResponse] returns. *)
Inductive Status : Type := loading | valid | error.

Definition Status_eqb (a b : Status) : bool :=
  match a, b with
  | loading, loading | valid, valid | error, error => true
  | _, _ => false
  end.

(** What the engine does to its collaborators, in order: the predicates it
    calls, the presenter hook it invokes ([new GoodForm.Validate.Effect(name,
    response)], with the class name and content the default hook gives the
    field's span when it finds one), and the requests it sends. *)
Inductive Event : Type :=
| EvIf (name : string)
| EvUnless (name : string)
| EvValidate (name : string) (value : jsval)
| EvEffect (name : string) (response : jsval) (shown : option (Status * jsval))
| EvSend (url : string).

(** ** The globals of [GoodForm] *)
Record State : Type := mkState {
  local : JsObj.t (list Rule);            (* GoodForm.local *)
  remote : JsObj.t (list Rule);           (* GoodForm.remote *)
  validMessage : jsval;                   (* GoodForm.validMessage *)
  validMessages : JsObj.t jsval;          (* GoodForm.validMessages *)
  loadingMessage : jsval;                 (* GoodForm.loadingMessage *)
  remotePath : string;                    (* GoodForm.remotePath *)
  queue : JsObj.t jsval;                  (* GoodForm.Validate.queue *)
  response : JsObj.t jsval;               (* GoodForm.Validate.response *)
  trace : list Event
}.

(** The state the script leaves when it is loaded. *)
Definition initial : State :=
  mkState [] [] (VStr "") [] (VStr "") "/validate" [] [] [].

Definition with_local (r : JsObj.t (list Rule)) (s : State) : State :=
  mkState r (remote s) (validMessage s) (validMessages s) (loadingMessage s)
          (remotePath s) (queue s) (response s) (trace s).
Definition with_remote (r : JsObj.t (list Rule)) (s : State) : State :=
  mkState (local s) r (validMessage s) (validMessages s) (loadingMessage s)
          (remotePath s) (queue s) (response s) (trace s).
Definition with_queue (q : JsObj.t jsval) (s : State) : State :=
  mkState (local s) (remote s) (validMessage s) (validMessages s)
          (loadingMessage s) (remotePath s) q (response s) (trace s).
Definition with_response (r : JsObj.t jsval) (s : State) : State :=
  mkState (local s) (remote s) (validMessage s) (validMessages s)
          (loadingMessage s) (remotePath s) (queue s) r (trace s).
Definition with_trace (t : list Event) (s : State) : State :=
  mkState (local s) (remote s) (validMessage s) (validMessages s)
          (loadingMessage s) (remotePath s) (queue s) (response s) t.

(** ** The monad: a call reads and writes the globals, and returns or throws
    (a throw keeps the writes made before it). *)
Definition M (A : Type) : Type := State -> outcome A * State.

Definition ret {A} (a : A) : M A := fun s => (Ret a, s).
Definition throw {A} : M A := fun s => (Throw, s).
Definition bind {A B} (m : M A) (f : A -> M B) : M B :=
  fun s => match m s with
           | (Ret a, s') => f a s'
           | (Throw, s') => (Throw, s')
           end.
Definition gets {A} (f : State -> A) : M A := fun s => (Ret (f s), s).
Definition modify (f : State -> State) : M unit := fun s => (Ret tt, f s).
Definition lift {A} (o : outcome A) : M A := fun s => (o, s).
Definition emit (e : Event) : M unit :=
  modify (fun s => with_trace (trace s ++ [e]) s).

Declare Scope js_scope.
Delimit Scope js_scope with js.
Notation "x <- m ;; k" := (bind m (fun x => k))
  (at level 100, m at next level, right associativity) : js_scope.
Notation "m ;; k" := (bind m (fun _ => k))
  (at level 100, right associativity) : js_scope.
Local Open Scope js_scope.

(** [for (...) body]: the body run on each element in turn. *)
Fixpoint for_each {A} (l : list A) (body : A -> M unit) : M unit :=
  match l with
  | [] => ret tt
  | x :: r => body x ;; for_each r body
  end.

(** ** The host: the DOM and the transport, as the engine uses them *)
Record Host : Type := mkHost {
  (* Helpers.getValuesByName(name, form): undefined when the form has no such
     control, the value of a single one, the array of values of several *)
  getValuesByName : string -> jsval -> jsval;
  (* Helpers.extractName on a string: the name of the element with that id
     when there is one, the string itself otherwise *)
  extractName : string -> string;
  (* Helpers.findOrCreateValidationSpan(name): whether a span was found or
     could be created next to a control of that name *)
  findOrCreateValidationSpan : string -> bool;
  encodeURIComponent : string -> string;
  (* location.protocol + "//" + location.host *)
  location : string
}.

(** The two registries, [GoodForm["remote"]] and [GoodForm["local"]]. *)
Inductive registry : Type := reg_remote | reg_local.

Definition registry_of (type : registry) (s : State) : JsObj.t (list Rule) :=
  match type with reg_remote => remote s | reg_local => local s end.

Definition with_registry (type : registry) (r : JsObj.t (list Rule))
    (s : State) : State :=
  match type with reg_remote => with_remote r s | reg_local => with_local r s end.

(** The field's list in a registry, empty when it has none. *)
Definition rules_of (reg : JsObj.t (list Rule)) (name : string) : list Rule :=
  match JsObj.get reg name with Some l => l | None => [] end.

(** The case of the dispatcher's [switch (true)] that skipped a rule. *)
Inductive Guard : Type :=
| blank_with_allowBlank
| null_with_allowNull
| if_failing
| unless_succeeding.

(** The options object of [Validate.Name]. *)
Record NameOptions : Type := mkNameOptions {
  defer : jsval;
  only_local : jsval;     (* options.local *)
  scope : jsval;
  silent : jsval
}.

Definition no_name_options : NameOptions :=
  mkNameOptions VUndef VUndef VUndef VUndef.

Module GoodForm.

(** *** [GoodForm.Helpers] *)
Module Helpers.

Definition parseResponse (response : jsval) : Status :=
  if eq_undefined response then loading
  else match response with
       | VArr (_ :: _) => error      (* constructor == Array && length > 0 *)
       | _ => valid
       end.

(** [incl.split("=")], its first two elements: the second is [undefined]
    when the string holds no [=]. *)
Fixpoint until_eq (s : string) : string * option string :=
  match s with
  | EmptyString => (EmptyString, None)
  | String c r =>
      if (c =? "=")%char then (EmptyString, Some r)
      else let (a, b) := until_eq r in (String c a, b)
  end.

Definition split_pair (s : string) : string * jsval :=
  let (a, r) := until_eq s in
  (a, match r with
      | None => VUndef
      | Some r' => VStr (fst (until_eq r'))
      end).

End Helpers.

(** *** [GoodForm.Validation], the constructor

    Called as [new GoodForm.Validation(arguments, defaultMessage, remote)]
    with [arguments] the field names followed by an optional configuration
    object.  The object it registers is the one its caller goes on to
    complete ([v.validate = ...]): [finish] is that completion. *)
Section Constructor.
Variable h : Host.

(** [for (var i = 0; name = args[i]; ++i)]: the loop ends at the first falsy
    name. *)
Fixpoint register (type : registry) (names : list string) (this : Rule)
    : M unit :=
  match names with
  | [] => ret tt
  | name :: rest =>
      if name =? "" then ret tt
      else
        let name := extractName h name in
        modify (fun s =>
          let reg := registry_of type s in
          with_registry type
            (JsObj.set reg name (rules_of reg name ++ [this])) s) ;;
        register type rest this
  end.

Definition Validation (names : list string) (options : option Options)
    (defaultMessage : option string) (remote : bool)
    (finish : Options -> Rule) : M unit :=
  match names, options with
  | [], None => throw     (* extractOptions reads [last.constructor] of [] *)
  | _, _ =>
      let this := match options with Some o => o | None => no_options end in
      let this :=
        match defaultMessage, message this with
        | Some key, None => set_message (JsObj.get defaultErrorMessages key) this
        | _, _ => this
        end in
      register (if remote then reg_remote else reg_local) names (finish this)
  end.

End Constructor.

(** *** [GoodForm.Validates], the kinds modelled *)
Module Validates.

Definition Presence_validate (v : Options) (value : jsval) : outcome jsval :=
  if blank (toString (js_or value (VStr ""))) then Ret (of_opt (message v))
  else Ret VUndef.

Definition Format_validate (v : Options) (value : jsval) : outcome jsval :=
  match opt_with v with
  | None => Throw                  (* v["with"] is undefined: .test throws *)
  | Some re => if negb (re (toString value)) then Ret (of_opt (message v))
               else Ret VUndef
  end.

(** [value ? value.length : 0]. *)
Definition length_of (value : jsval) : option Z :=
  if truthy value then
    match value with
    | VStr s => Some (Z.of_nat (String.length s))
    | VArr l => Some (Z.of_nat (List.length l))
    | _ => None
    end
  else Some 0%Z.

(** [==], [<] and [>] between numbers that may be [undefined]. *)
Definition num_eq (a b : option Z) : bool :=
  match a, b with
  | None, None => true
  | Some x, Some y => (x =? y)%Z
  | _, _ => false
  end.
Definition num_lt (a b : option Z) : bool :=
  match a, b with Some x, Some y => (x <? y)%Z | _, _ => false end.
Definition num_truthy (a : option Z) : bool :=
  match a with Some x => negb (x =? 0)%Z | None => false end.
Definition num_string (a : option Z) : string :=
  match a with Some x => string_of_Z x | None => "undefined" end.

(** [a || b || dflt] on messages. *)
Definition first_message (a b : option string) (dflt : string) : string :=
  match a with
  | Some s => if s =? "" then
                match b with
                | Some s' => if s' =? "" then dflt else s'
                | None => dflt
                end
              else s
  | None => match b with
            | Some s' => if s' =? "" then dflt else s'
            | None => dflt
            end
  end.

Definition default_message (key : string) : string :=
  match JsObj.get defaultErrorMessages key with Some m => m | None => "" end.

(** What [Validates.Length] does to [v] between construction and the
    assignment of [v.validate]. *)
Definition Length_bounds (v : Options) : Options :=
  let v := match inOption v with Some r => set_in (Some r) v | None => v end in
  match (match within v with Some r => Some r | None => opt_in v end) with
  | Some range => set_bounds (hd_error range) (hd_error (rev range)) v
  | None => if num_truthy (opt_is v) then set_bounds (opt_is v) (opt_is v) v
            else v
  end.

Definition Length_validate (v : Options) (value : jsval) : outcome jsval :=
  let len := length_of value in
  if num_eq (minimum v) (maximum v) && negb (num_eq len (minimum v)) then
    Ret (VStr (replace_pct_d (num_string (minimum v))
                 (first_message (wrongLength v) (message v)
                    (default_message "wrongLength"))))
  else if num_lt len (minimum v) then
    Ret (VStr (replace_pct_d (num_string (minimum v))
                 (first_message (tooShort v) (message v)
                    (default_message "tooShort"))))
  else if num_truthy (maximum v) && num_lt (maximum v) len then
    Ret (VStr (replace_pct_d (num_string (maximum v))
                 (first_message (tooLong v) (message v)
                    (default_message "tooLong"))))
  else Ret VUndef.

Section Kinds.
Variable h : Host.

Definition Presence (names : list string) (options : option Options) : M unit :=
  Validation h names options (Some "blank") false
    (fun v => mkRule v (Some (Presence_validate v)) false).

Definition Format (names : list string) (options : option Options) : M unit :=
  Validation h names options (Some "invalid") false
    (fun v => mkRule v (Some (Format_validate v)) false).

Definition Length (names : list string) (options : option Options) : M unit :=
  Validation h names options None false
    (fun v => let v := Length_bounds v in
              mkRule v (Some (Length_validate v)) false).

Definition Ajax (names : list string) (options : option Options) : M unit :=
  Validation h names options None true (fun v => mkRule v None true).

(** The extension formula of the file's header: a rule whose [validate] is
    the caller's own function of the rule and the value. *)
Definition Custom (names : list string) (options : option Options)
    (defaultMessage : option string)
    (f : Options -> jsval -> outcome jsval) : M unit :=
  Validation h names options defaultMessage false
    (fun v => mkRule v (Some (f v)) false).

End Kinds.
End Validates.

(** *** [GoodForm.Validate] *)
Module Validate.
Import Helpers.

Section Engine.
Variable h : Host.

(** [new GoodForm.Validate.Effect(name, response)], the presenter hook: when
    the field has a span, its class name becomes ["good_form " + status] and
    its content the loading message, the valid message or the joined
    errors. *)
Definition Effect_span (s : State) (name : string) (response : jsval)
    : option (Status * jsval) :=
  if findOrCreateValidationSpan h name then
    let status := parseResponse response in
    Some (status,
          match status with
          | loading => loadingMessage s
          | valid =>
              js_or response
                (js_or (JsObj.read (validMessages s) name) (validMessage s))
          | error =>
              match response with
              | VArr l => VStr (join ", " l)
              | _ => VUndef
              end
          end)
  else None.

Definition Effect (name : string) (response : jsval) : M unit :=
  s <- gets (fun s => s) ;;
  emit (EvEffect name response (Effect_span s name response)).

(** [v.validate(value)]. *)
Definition call_validate (v : Rule) (name : string) (value : jsval)
    : M jsval :=
  match validate v with
  | None => throw
  | Some f => emit (EvValidate name value) ;; lift (f value)
  end.

(** [Validate.Local(name)]: the field's local rules run silently, guards
    ignored; false at the first one that returns a message. *)
Fixpoint Local_loop (name : string) (rules : list Rule) : M bool :=
  match rules with
  | [] => ret true
  | v :: rest =>
      e <- call_validate v name (getValuesByName h name VUndef) ;;
      if truthy e then ret false else Local_loop name rest
  end.

Definition Local (name : string) : M bool :=
  reg <- gets local ;;
  match JsObj.get reg name with
  | None => throw          (* GoodForm.local[name][i] of undefined *)
  | Some rules => Local_loop name rules
  end.

Definition call_cond (c : Cond) (name : string) : M jsval :=
  match c with
  | CondFn f => lift (f name)
  | CondLocal => b <- Local name ;; ret (VBool b)
  end.

(** The four [case]s of the dispatcher's [switch (true)], tried in order:
    each expression is evaluated only when the ones before it were not
    [true]. *)
Definition guard (v : Rule) (name : string) (value : jsval)
    : M (option Guard) :=
  let o := props v in
  if strict_true (js_and (allowBlank o) (VBool (blank (toString value))))
  then ret (Some blank_with_allowBlank)
  else if strict_true (js_and (allowNull o) (VBool (eq_empty_string value)))
  then ret (Some null_with_allowNull)
  else
    c <- match opt_if o with
         | None => ret VUndef
         | Some f => emit (EvIf name) ;;
                     r <- call_cond f name ;;
                     ret (VBool (negb (truthy r)))
         end ;;
    if strict_true c then ret (Some if_failing)
    else
      c <- match unless o with
           | None => ret VUndef
           | Some f => emit (EvUnless name) ;; call_cond f name
           end ;;
      ret (if strict_true c then Some unless_succeeding else None).

(** [v.pushParameters()] of an Ajax rule. *)
Fixpoint pushParameters_loop (incls : list string) : M unit :=
  match incls with
  | [] => ret tt
  | incl :: rest =>
      if incl =? "" then ret tt
      else
        let value := getValuesByName h incl VUndef in
        (if truthy value
         then modify (fun s => with_queue (JsObj.set (queue s) incl value) s)
         else let (k, x) := split_pair incl in
              modify (fun s => with_queue (JsObj.set (queue s) k x) s)) ;;
        pushParameters_loop rest
  end.

Definition call_pushParameters (v : Rule) : M unit :=
  if pushParameters v then pushParameters_loop (include (props v)) else throw.

(** [errors.concat(error)] on a truthy [errors]: an array appends, a string
    concatenates, nothing else has the method. *)
Definition concat (errors e : jsval) : outcome jsval :=
  match errors with
  | VArr l => Ret (VArr (l ++ to_array e))
  | VStr s => Ret (VStr (s ++ toString e)%string)
  | _ => Throw
  end.

(** The body of the dispatcher's loop for one rule. *)
Definition Queue_rule (type : registry) (name : string) (value : jsval)
    (v : Rule) : M unit :=
  g <- guard v name value ;;
  match g with
  | Some _ => ret tt
  | None =>
      match type with
      | reg_remote =>
          modify (fun s => with_queue (JsObj.set (queue s) name value) s) ;;
          call_pushParameters v
      | reg_local =>
          e <- call_validate v name value ;;
          if truthy e then
            errors <- gets (fun s =>
                        js_or (JsObj.read (response s) name) (VArr [])) ;;
            r <- lift (concat errors e) ;;
            modify (fun s => with_response (JsObj.set (response s) name r) s)
          else ret tt
      end
  end.

(** [Validate.Queue(type, name, value)], the dispatcher. *)
Definition Queue (type : registry) (name : string) (value : jsval)
    : M jsval :=
  reg <- gets (registry_of type) ;;
  match JsObj.get reg name with
  | None => ret VNull
  | Some rules =>
      for_each rules (Queue_rule type name value) ;;
      match type with
      | reg_remote => gets (fun s => JsObj.read (queue s) name)
      | reg_local =>
          r <- gets (fun s => JsObj.read (response s) name) ;;
          (if truthy r then ret tt
           else modify (fun s =>
                  with_response
                    (JsObj.set (response s) name
                       (js_or (JsObj.read (validMessages s) name)
                              (validMessage s))) s)) ;;
          gets (fun s => JsObj.read (response s) name)
      end
  end.

(** [for (var i = 0; value = values[i]; ++i)]: the values up to the first
    falsy one. *)
Fixpoint leading_truthy (values : list jsval) : list jsval :=
  match values with
  | [] => []
  | value :: rest => if truthy value then value :: leading_truthy rest else []
  end.

Definition params_of (q : JsObj.t jsval) : list string :=
  flat_map (fun name =>
              map (fun value =>
                     (name ++ "=" ++
                      encodeURIComponent h (toString value))%string)
                  (leading_truthy (to_array (JsObj.read q name))))
           (JsObj.keys q).

(** [t.onreadystatechange], as the host calls it with the request's
    [readyState] and [status] and, on completion, the object its
    [responseText] evaluates to.  [loadingState] is declared by
    [Validate.Remote] and never assigned. *)
Definition onreadystatechange (readyState status : Z) (json : JsObj.t jsval)
    : M unit :=
  let loadingState := VUndef in
  if ((readyState =? 4) && (200 <=? status) && (status <? 300))%Z then
    for_each (JsObj.keys json) (fun name => Effect name (JsObj.read json name))
  else if negb (truthy loadingState) then
    q <- gets queue ;;
    for_each (JsObj.keys q) (fun name => Effect name VUndef)
  else ret tt.

(** [Validate.Remote()].  [t.open] moves the request to OPENED and fires
    [readystatechange] once, before [Remote] returns; the later states are
    delivered by the host through [onreadystatechange]. *)
Definition Remote : M bool :=
  q <- gets queue ;;
  let params := params_of q in
  if (List.length params <? 1)%nat then ret false
  else
    onreadystatechange 1 0 [] ;;
    path <- gets remotePath ;;
    emit (EvSend (location h ++ path ++ "?" ++
                  join_strings "&" params)%string) ;;
    ret true.

(** The loop of [Validate.Run] over [Validate.response]; [response] is the
    variable the loop assigns and [Run] reads after it. *)
Fixpoint Run_loop (silent : jsval) (names : list string) (response_var : jsval)
    : M jsval :=
  match names with
  | [] => ret response_var
  | name :: rest =>
      x <- gets (fun s => JsObj.read (response s) name) ;;
      (if truthy silent then ret tt else Effect name x) ;;
      Run_loop silent rest x
  end.

(** [Validate.Run({ silent: silent })], the flush. *)
Definition Run (silent : jsval) : M bool :=
  sent <- Remote ;;
  last <- (if sent then ret VUndef
           else r <- gets response ;;
                Run_loop silent (JsObj.keys r) VUndef) ;;
  modify (with_queue []) ;;
  ret (Status_eqb (parseResponse last) valid).

(** [Validate.Name(name, options)], also called [Validate(name, options)]. *)
Definition Name (name : string) (options : NameOptions) : M jsval :=
  let name := extractName h name in
  (if truthy (defer options) then ret tt else modify (with_response [])) ;;
  let value := getValuesByName h name (scope options) in
  if eq_undefined value then ret VUndef
  else
    remote <- (if truthy (only_local options) then ret VUndef
               else Queue reg_remote name value) ;;
    (if truthy remote then ret tt
     else _ <- Queue reg_local name value ;; ret tt) ;;
    if negb (truthy (defer options)) then
      b <- Run (silent options) ;; ret (VBool b)
    else if negb (name =? "") then
      gets (fun s => JsObj.read (response s) name)
    else ret VUndef.

(** [Validate.All(form)]. *)
Definition All (form : jsval) : M bool :=
  let deferred := mkNameOptions (VBool true) VUndef form VUndef in
  modify (with_response []) ;;
  rs <- gets remote ;;
  for_each (JsObj.keys rs) (fun name => _ <- Name name deferred ;; ret tt) ;;
  ls <- gets local ;;
  for_each (JsObj.keys ls)
    (fun name =>
       r <- gets (fun s => JsObj.read (response s) name) ;;
       if truthy r then ret tt else _ <- Name name deferred ;; ret tt) ;;
  Run VUndef.

End Engine.
End Validate.
End GoodForm.

Import GoodForm GoodForm.Helpers.

(** ** Pages to run the engine on *)

(** [encodeURIComponent] on a string of bytes: letters, digits and
    [-_.!~*'()] stay, any other byte becomes [%XX]. *)
Definition hex_digit (n : nat) : ascii :=
  ascii_of_nat (if (n <? 10)%nat then 48 + n else 55 + n).

Definition unreserved (c : ascii) : bool :=
  let n := nat_of_ascii c in
  ((48 <=? n) && (n <=? 57) || (65 <=? n) && (n <=? 90)
   || (97 <=? n) && (n <=? 122))%nat
  || existsb (Ascii.eqb c) (list_ascii_of_string "-_.!~*'()").

Fixpoint percent_encode (s : string) : string :=
  match s with
  | EmptyString => EmptyString
  | String c r =>
      if unreserved c then String c (percent_encode r)
      else
        let n := nat_of_ascii c in
        String "%" (String (hex_digit (n / 16))
                      (String (hex_digit (n mod 16)) (percent_encode r)))
  end.

(** A page at [http://example.com] whose controls have the given values,
    every control with a span of its own, no element id differing from its
    name. *)
Definition page (controls : JsObj.t jsval) : Host :=
  mkHost (fun name _ => JsObj.read controls name)
         (fun input => input)
         (fun _ => true)
         percent_encode
         "http://example.com".

(** A rule that fails every value with one message. *)
Definition always_invalid (_ : Options) (_ : jsval) : outcome jsval :=
  Ret (VStr "is always invalid").

(** The pattern [/@/]: the string holds an [@]. *)
Fixpoint has_at (s : string) : bool :=
  match s with
  | EmptyString => false
  | String c r => (c =? "@")%char || has_at r
  end.

(** The configuration objects of the examples. *)
Definition allowing_null : Options :=
  mkOptions None VUndef (VBool true) None None None None None None None
            None None None None None None [].
Definition minimum_6_allowBlank : Options :=
  mkOptions None (VBool true) VUndef None None None None None None None
            (Some 6%Z) None None None None None [].
Definition minimum_6 : Options :=
  mkOptions None VUndef VUndef None None None None None None None
            (Some 6%Z) None None None None None [].
Definition with_at : Options :=
  mkOptions None VUndef VUndef None None (Some has_at) None None None None
            None None None None None None [].
Definition withOption_only : Options :=
  mkOptions None VUndef VUndef None None None (Some has_at) None None None
            None None None None None None [].

(** The statuses the presenter hook was given for a field, in order. *)
Fixpoint reports (name : string) (t : list Event) : list Status :=
  match t with
  | [] => []
  | EvEffect n response _ :: r =>
      if n =? name then parseResponse response :: reports name r
      else reports name r
  | _ :: r => reports name r
  end.

(** The predicate calls of a trace. *)
Fixpoint validations (t : list Event) : list (string * jsval) :=
  match t with
  | [] => []
  | EvValidate n value :: r => (n, value) :: validations r
  | _ :: r => validations r
  end.

(** The pages of the examples. *)
Definition signup : Host :=
  page [("login", VStr ""); ("email", VStr "a@b.com")].
Definition empty_email : Host := page [("email", VStr "")].
Definition empty_password : Host := page [("password", VStr "")].
Definition blank_email : Host := page [("email", VStr "  ")].

Definition deferred : NameOptions :=
  mkNameOptions (VBool true) VUndef VUndef VUndef.

(** What a run leaves to look at: its result, the queue, the response map
    and the trace. *)
Definition observe {A} (r : outcome A * State)
    : outcome A * JsObj.t jsval * JsObj.t jsval * list Event :=
  (fst r, queue (snd r), response (snd r), trace (snd r)).

(** ** The cases of the dispatcher's switch, as conditions *)

(** [v.allowBlank && /^\s*$/.test(value)] is [true]. *)
Definition blank_case (value : jsval) (v : Rule) : bool :=
  truthy (allowBlank (props v)) && blank (toString value).

(** [v.allowNull && value == ""] is [true]. *)
Definition null_case (value : jsval) (v : Rule) : bool :=
  truthy (allowNull (props v)) && eq_empty_string value.

(** [v["if"](name)], when the switch reaches it. *)
Definition call_if (h : Host) (name : string) (c : Cond) : M jsval :=
  emit (EvIf name) ;; Validate.call_cond h c name.

(** [v.unless(name)], when the switch reaches it. *)
Definition call_unless (h : Host) (name : string) (c : Cond) : M jsval :=
  emit (EvUnless name) ;; Validate.call_cond h c name.

(** The third case did not fire and left [s']: the rule has no [if], or its
    [if] was called and returned a truthy value. *)
Definition if_passed (h : Host) (name : string) (v : Rule) (s s' : State)
    : Prop :=
  (opt_if (props v) = None /\ s' = s)
  \/ exists c r, opt_if (props v) = Some c
       /\ call_if h name c s = (Ret r, s')
       /\ truthy r = true.

(** The rule [new GoodForm.Validation(["f", { allowNull: true }])] with a
    [validate] that fails every value. *)
Definition null_allowing_rule : Rule :=
  mkRule allowing_null (Some (always_invalid allowing_null)) false.

(** The rule [Validates.Length(name, { minimum: 6, allowBlank: true })]
    registers. *)
Definition length_rule : Rule :=
  let v := Validates.Length_bounds minimum_6_allowBlank in
  mkRule v (Some (Validates.Length_validate v)) false.

(** ** Frames: what a call leaves as it was *)

(** Every run of [m] ends in a state related to the one it started in. *)
Definition keeps {A} (R : State -> State -> Prop) (m : M A) : Prop :=
  forall s, R s (snd (m s)).

(** The response map is the same. *)
Definition same_response (s s' : State) : Prop := response s' = response s.

(** The response map is the same and no predicate was called. *)
Definition quiet (s s' : State) : Prop :=
  response s' = response s
  /\ validations (trace s') = validations (trace s).

(** The state [Validate.Name] dispatches in: the response map reset unless
    the call is deferred. *)
Definition reset_unless_deferred (options : NameOptions) (s : State) : State :=
  if truthy (defer options) then s else with_response [] s.

(** What [Validate.Name] does after its dispatches: flush and return the
    flush's boolean, or, deferred, return the field's entry. *)
Definition Name_return (h : Host) (name : string) (options : NameOptions)
    : M jsval :=
  if negb (truthy (defer options)) then
    b <- Validate.Run h (silent options) ;; ret (VBool b)
  else if negb (name =? "") then
    gets (fun s => JsObj.read (response s) name)
  else ret VUndef.

(** A page's registry: an Ajax rule and a presence rule on email. *)
Definition email_rules (h : Host) : State :=
  snd ((Validates.Ajax h ["email"] None ;;
        Validates.Presence h ["email"] None) initial).

(** ** What one local rule contributes *)

(** [m] reads nothing but the local registry and writes nothing but the
    trace: on every state with the registry [L] it returns the same outcome
    and appends the same events. *)
Definition reads_local_only {A} (m : M A) : Prop :=
  forall L, exists o t,
    forall s, local s = L -> m s = (o, with_trace (trace s ++ t) s).

(** The messages a local rule adds to the field's error list for a value, in
    a state with the registry of [s0]: none when a guard skips it or its
    predicate returns a falsy value, the message it returns otherwise (the
    elements of the array, when it returns an array: [concat] flattens). *)
Definition verdict (h : Host) (s0 : State) (name : string) (value : jsval)
    (v : Rule) : outcome (list jsval) :=
  match fst (Validate.guard h v name value s0) with
  | Throw => Throw
  | Ret (Some _) => Ret []
  | Ret None =>
      match validate v with
      | None => Throw
      | Some f =>
          match f value with
          | Throw => Throw
          | Ret e => Ret (if truthy e then to_array e else [])
          end
      end
  end.

(** The field's entry in the response map holds the error list [acc]: the
    array itself, or nothing yet when the list is empty. *)
Definition holds_errors (name : string) (acc : list jsval) (s : State)
    : Prop :=
  (truthy (JsObj.read (response s) name) = false /\ acc = [])
  \/ JsObj.read (response s) name = VArr acc.

(** A page's registry: a presence rule, then a format rule, on email. *)
Definition presence_then_format (h : Host) : State :=
  snd ((Validates.Presence h ["email"] None ;;
        Validates.Format h ["email"] (Some with_at)) initial).

(** The two rules [presence_then_format] registers. *)
Definition presence_rule : Rule :=
  let v := set_message (Some "can't be blank") no_options in
  mkRule v (Some (Validates.Presence_validate v)) false.
Definition format_rule : Rule :=
  let v := set_message (Some "is invalid") with_at in
  mkRule v (Some (Validates.Format_validate v)) false.


(** ** The flush, read off the state it starts in *)

(** [Validate.Remote] has something to send: the queue yields a parameter. *)
Definition sends (h : Host) (s : State) : bool :=
  negb (List.length (Validate.params_of h (queue s)) <? 1)%nat.

(** The value of the last property of the response map, [undefined] when it
    has none. *)
Definition last_entry (r : JsObj.t jsval) : jsval :=
  last (map (JsObj.read r) (JsObj.keys r)) VUndef.

(** The loading reports of a batch: one for each property of the queue. *)
Definition loading_reports (h : Host) (s : State) : list Event :=
  map (fun name => EvEffect name VUndef (Validate.Effect_span h s name VUndef))
      (JsObj.keys (queue s)).

(** The request of a batch. *)
Definition request (h : Host) (s : State) : Event :=
  EvSend (location h ++ remotePath s ++ "?" ++
          join_strings "&" (Validate.params_of h (queue s)))%string.

(** The properties of the queue stay distinct. *)
Definition queue_distinct (s s' : State) : Prop :=
  NoDup (JsObj.keys (queue s)) -> NoDup (JsObj.keys (queue s')).

(** ** The DOM helpers of [GoodForm.Helpers], over a document

    A document is the list of its elements in document order.  An element
    has an identity ([el_node]), an id and a name (the empty string when it
    has none), a value, a checked flag, a type, and the form that owns it. *)
Module Dom.

Record Element : Type := mkElement {
  el_node : nat;
  el_id : string;
  el_name : string;
  el_value : string;
  el_checked : bool;
  el_type : string;
  el_form : option nat
}.

Definition Document : Type := list Element.

(** [document.getElementById(id)]. *)
Definition getElementById (doc : Document) (id : string) : option Element :=
  if id =? "" then None else find (fun el => el_id el =? id) doc.

(** [document.getElementsByName(name)]. *)
Definition getElementsByName (doc : Document) (name : string) : list Element :=
  if name =? "" then [] else filter (fun el => el_name el =? name) doc.

(** The [form] argument of [getValuesByName]: nothing, the id of a form, a
    form element itself, or any other truthy value. *)
Inductive Scope : Type :=
| scope_none
| scope_id (id : string)
| scope_node (n : nat)
| scope_elsewhere.

(** [form = document.getElementById(form)] when [form] is a non-empty
    string: an id the document does not have leaves [null]. *)
Definition resolve (doc : Document) (form : Scope) : Scope :=
  match form with
  | scope_id id =>
      match getElementById doc id with
      | Some el => scope_node (el_node el)
      | None => scope_none
      end
  | _ => form
  end.

(** [!form || form == el.form]. *)
Definition in_scope (form : Scope) (el : Element) : bool :=
  match form with
  | scope_none => true
  | scope_node n =>
      match el_form el with Some m => (n =? m)%nat | None => false end
  | _ => false
  end.

(** [sub] occurs in [s]. *)
Fixpoint contains (sub s : string) : bool :=
  prefix sub s
  || match s with
     | EmptyString => false
     | String _ r => contains sub r
     end.

(** [/checkbox|radio/.test(type)]. *)
Definition checkable (type : string) : bool :=
  contains "checkbox" type || contains "radio" type.

(** What one element adds to [values]. *)
Definition values_of (form : Scope) (len : nat) (el : Element) : list string :=
  if in_scope form el then
    if el_checked el || negb (checkable (el_type el)) then [el_value el]
    else if (len =? 1)%nat then [""]       (* For the unchecked *)
    else []
  else [].

(** [Helpers.getValuesByName(name, form)]. *)
Definition getValuesByName (doc : Document) (name : string) (form : Scope)
    : jsval :=
  let els := getElementsByName doc name in
  let form := resolve doc form in
  let values := flat_map (values_of form (List.length els)) els in
  match values with
  | [] => VUndef                           (* values[0] of an empty array *)
  | [v] => VStr v
  | _ => VArr (map VStr values)
  end.

(** [Helpers.extractName(input)] on a string. *)
Definition extractName (doc : Document) (input : string) : string :=
  match getElementById doc input with
  | Some el => el_name el
  | None => input
  end.

(** [String.prototype.toLowerCase] on a code unit below 256. *)
Definition to_lower (c : ascii) : ascii :=
  let n := nat_of_ascii c in
  if ((65 <=? n) && (n <=? 90)
      || (192 <=? n) && (n <=? 222) && negb (n =? 215))%nat
  then ascii_of_nat (n + 32)
  else c.

Fixpoint toLowerCase (s : string) : string :=
  match s with
  | EmptyString => EmptyString
  | String c r => String (to_lower c) (toLowerCase r)
  end.

(** The class [\w]: a letter, a digit or the underscore. *)
Definition is_word (c : ascii) : bool :=
  let n := nat_of_ascii c in
  ((48 <=? n) && (n <=? 57) || (65 <=? n) && (n <=? 90)
   || (97 <=? n) && (n <=? 122) || (n =? 95))%nat.

(** [s.replace(/[^\w]+/g, "_")]; [in_run] says the character before was
    part of the run being replaced. *)
Fixpoint squash (in_run : bool) (s : string) : string :=
  match s with
  | EmptyString => EmptyString
  | String c r =>
      if is_word c then String c (squash false r)
      else if in_run then squash true r
      else String "_" (squash true r)
  end.

(** [s.replace(/^_+|_+$/g, "")]: the underscores at the start and at the
    end go. *)
Fixpoint strip_start (s : string) : string :=
  match s with
  | EmptyString => EmptyString
  | String c r => if (c =? "_")%char then strip_start r else s
  end.

Fixpoint strip_end (s : string) : string :=
  match s with
  | EmptyString => EmptyString
  | String c r =>
      match strip_end r with
      | EmptyString => if (c =? "_")%char then EmptyString
                       else String c EmptyString
      | r' => String c r'
      end
  end.

(** [Helpers.underscore(string)]. *)
Definition underscore (s : string) : string :=
  strip_end (strip_start (squash false (toLowerCase s))).

(** [Helpers.findOrCreateValidationSpan(name)], as the truth value of what
    it returns: the element whose id is the underscored name followed by
    [_validation], or else a span created after the last control of that
    name when there is one. *)
Definition findOrCreateValidationSpan (doc : Document) (name : string) : bool :=
  match getElementById doc (underscore name ++ "_validation") with
  | Some _ => true
  | None =>
      match rev (getElementsByName doc name) with
      | _ :: _ => true
      | [] => false
      end
  end.

(** The scope a value given as [options.scope] stands for: an object here
    is not an element of the document. *)
Definition scope_of (form : jsval) : Scope :=
  match form with
  | VStr id => scope_id id
  | _ => if truthy form then scope_elsewhere else scope_none
  end.

(** The host a document makes. *)
Definition host (doc : Document) (location : string)
    (encodeURIComponent : string -> string) : Host :=
  mkHost (fun name form => getValuesByName doc name (scope_of form))
         (extractName doc)
         (findOrCreateValidationSpan doc)
         encodeURIComponent
         location.

End Dom.

(** ** Shapes of strings and of field values *)

(** Every character of [s] satisfies [p]. *)
Fixpoint every (p : ascii -> bool) (s : string) : bool :=
  match s with
  | EmptyString => true
  | String c r => p c && every p r
  end.

(** A lower-case letter, a digit or the underscore. *)
Definition id_char (c : ascii) : bool :=
  let n := nat_of_ascii c in
  ((48 <=? n) && (n <=? 57) || (97 <=? n) && (n <=? 122) || (n =? 95))%nat.

Definition starts_with_underscore (s : string) : bool :=
  match s with
  | String c _ => (c =? "_")%char
  | EmptyString => false
  end.

Fixpoint ends_with_underscore (s : string) : bool :=
  match s with
  | EmptyString => false
  | String c EmptyString => (c =? "_")%char
  | String _ r => ends_with_underscore r
  end.


(** The controls of that name are check boxes or radio buttons, none of
    them checked. *)
Definition all_unchecked (doc : Dom.Document) (name : string) : Prop :=
  Forall (fun el => Dom.el_checked el = false
                    /\ Dom.checkable (Dom.el_type el) = true)
         (Dom.getElementsByName doc name).

(** A document with an unchecked radio group, a lone unchecked check box and
    a text field. *)
Definition survey : Dom.Document :=
  [ Dom.mkElement 0 "poll" "" "" false "" None;
    Dom.mkElement 1 "colour_red" "colour" "red" false "radio" (Some 0);
    Dom.mkElement 2 "colour_blue" "colour" "blue" false "radio" (Some 0);
    Dom.mkElement 3 "terms" "terms" "1" false "checkbox" (Some 0);
    Dom.mkElement 4 "nick" "user[nick]" "Al" false "text" (Some 0) ].

(** ** What validation leaves alone *)

(** The registries and the settings are the same. *)
Definition same_setup (s s' : State) : Prop :=
  local s' = local s /\ remote s' = remote s
  /\ validMessage s' = validMessage s /\ validMessages s' = validMessages s
  /\ loadingMessage s' = loadingMessage s /\ remotePath s' = remotePath s.

(** The registries, the settings and the queue are the same. *)
Definition same_queue (s s' : State) : Prop :=
  same_setup s s' /\ queue s' = queue s.

(** The registries, the settings and the response map are the same. *)
Definition same_map (s s' : State) : Prop :=
  same_setup s s' /\ response s' = response s.

(** The calls of the presenter and the requests of a trace. *)
Definition shown_events (t : list Event) : list Event :=
  filter (fun e => match e with
                   | EvEffect _ _ _ | EvSend _ => true
                   | _ => false
                   end) t.

(** Nothing was shown or sent. *)
Definition unseen (s s' : State) : Prop :=
  shown_events (trace s') = shown_events (trace s).

(** The final reports of a flush that sends nothing: one for each property
    of the response map, none when the flush is silent. *)
Definition final_reports (h : Host) (silent : jsval) (s : State) : list Event :=
  if truthy silent then []
  else map (fun name =>
              EvEffect name (JsObj.read (response s) name)
                (Validate.Effect_span h s name (JsObj.read (response s) name)))
           (JsObj.keys (response s)).

(** The response map of a call that has dispatched one field only: empty
    while the field has no error, and then the field's error list alone. *)
Definition fresh_errors (name : string) (acc : list jsval) (s : State)
    : Prop :=
  (response s = [] /\ acc = []) \/ response s = [(name, VArr acc)].

(** The entry the local dispatch leaves for a field: the error list when
    the rules contributed a message [ms], and otherwise the field's valid
    message (or the empty array, when a predicate returned one). *)
Definition entry_of (ms : list jsval) (s : State) (name : string) (r : jsval)
    : Prop :=
  (ms <> [] /\ r = VArr ms)
  \/ (ms = []
      /\ (r = VArr []
          \/ r = js_or (JsObj.read (validMessages s) name) (validMessage s))).

(** [v.validate(value)], as a value: what the predicate of a rule answers. *)
Definition answer (v : Rule) (value : jsval) : outcome jsval :=
  match validate v with
  | None => Throw
  | Some f => f value
  end.

(** How many predicates [Validate.Local] calls for these answers: the ones
    up to the first answer that is a message, that one included. *)
Fixpoint asked (es : list jsval) : nat :=
  match es with
  | [] => 0
  | e :: rest => S (if truthy e then 0 else asked rest)
  end.

(** A page's registry: one length rule with [allowBlank] on email. *)
Definition length_on_email (h : Host) : State :=
  snd (Validates.Length h ["email"] (Some minimum_6_allowBlank) initial).

(** The names a registration loops over: [for (i = 0; name = args[i]; ++i)]
    ends at the first empty name. *)
Fixpoint named (names : list string) : list string :=
  match names with
  | [] => []
  | name :: rest => if name =? "" then [] else name :: named rest
  end.

(** The options a rule ends with: the configuration object, and the default
    message of its kind when the object has no message. *)
Definition configured (options : option Options)
    (defaultMessage : option string) : Options :=
  let this := match options with Some o => o | None => no_options end in
  match defaultMessage, message this with
  | Some key, None => set_message (JsObj.get defaultErrorMessages key) this
  | _, _ => this
  end.

(** A remote rule that does nothing but enqueue the field for this value: no
    guard skips it and it includes no other parameter. *)
Definition enqueues_only (value : jsval) (v : Rule) : Prop :=
  blank_case value v = false /\ null_case value v = false
  /\ opt_if (props v) = None /\ unless (props v) = None
  /\ pushParameters v = true /\ include (props v) = [].

(** The range [Validates.Length] reads: [within], else [inOption], else
    ["in"]. *)
Definition range_of (v : Options) : option (list Z) :=
  match within v with
  | Some r => Some r
  | None => match inOption v with Some r => Some r | None => opt_in v end
  end.

(** The options give [Validates.Length] the bounds [lo] and [hi]: as the
    ends of a range, or as an exact length [is] that is not zero. *)
Definition bounded (v : Options) (lo hi : Z) : Prop :=
  (exists range, range_of v = Some range /\ hd_error range = Some lo
                 /\ hd_error (rev range) = Some hi)
  \/ (range_of v = None /\ opt_is v = Some lo /\ lo <> 0%Z /\ hi = lo).

(** The options give [Validates.Length] no bound at all: no range, no
    minimum or maximum, and no exact length other than zero. *)
Definition unbounded (v : Options) : Prop :=
  range_of v = None /\ Validates.num_truthy (opt_is v) = false
  /\ minimum v = None /\ maximum v = None.

Definition within_2_4 : Options :=
  mkOptions None VUndef VUndef None None None None (Some [2; 4]%Z) None None
            None None None None None None [].

(** The string holds no [=]. *)
Definition no_equals (s : string) : bool :=
  every (fun c => negb (c =? "=")%char) s.

(** A page with an email field and no other control. *)
Definition only_email : Host := page [("email", VStr "a@b.com")].

(** No guard of these options can skip the rule: neither flag is set and
    there is no condition. *)
Definition unguarded (o : Options) : Prop :=
  truthy (allowBlank o) = false /\ truthy (allowNull o) = false
  /\ opt_if o = None /\ unless o = None.

(** A page's registry: a format rule on email, and nothing else. *)
Definition format_on_email (h : Host) : State :=
  snd (Validates.Format h ["email"] (Some with_at) initial).

(** The [values] array of [getValuesByName], before it is returned. *)
Definition field_values (doc : Dom.Document) (name : string)
    (form : Dom.Scope) : list string :=
  flat_map (Dom.values_of (Dom.resolve doc form)
              (List.length (Dom.getElementsByName doc name)))
           (Dom.getElementsByName doc name).

(** * Properties *)

(** ** Reading the monad and the maps *)

Ltac run_monad :=
  unfold bind, ret, gets, modify, emit, lift, throw in *; simpl in *.

Lemma with_trace_trace (s : State) : with_trace (trace s) s = s.
Proof. destruct s; reflexivity. Qed.

Lemma with_trace_twice (t t' : list Event) (s : State) :
  with_trace t' (with_trace t s) = with_trace t' s.
Proof. destruct s; reflexivity. Qed.

Lemma get_set_same {V} (o : JsObj.t V) (k : string) (v : V) :
  JsObj.get (JsObj.set o k v) k = Some v.
Proof.
  induction o as [|[k' v'] o IH]; simpl.
  - now rewrite String.eqb_refl.
  - destruct (k =? k') eqn:E; simpl; rewrite E; auto.
Qed.

Lemma read_set_same (o : JsObj.t jsval) (k : string) (v : jsval) :
  JsObj.read (JsObj.set o k v) k = v.
Proof. unfold JsObj.read. now rewrite get_set_same. Qed.

(** [a && b] is [true] exactly when [a] is truthy and [b] is [true]. *)
Lemma strict_true_and (a : jsval) (b : bool) :
  strict_true (js_and a (VBool b)) = truthy a && b.
Proof.
  unfold js_and. destruct (truthy a) eqn:T; simpl.
  - now destruct b.
  - destruct a as [| |[|]| | | |]; simpl in *; congruence.
Qed.

(** ** The guards of the dispatcher *)
Section Guards.
Variable h : Host.
Variables (name : string) (value : jsval) (v : Rule).

Lemma guard_blank (s : State) :
  blank_case value v = true ->
  Validate.guard h v name value s = (Ret (Some blank_with_allowBlank), s).
Proof.
  intros B. unfold Validate.guard. rewrite strict_true_and.
  fold (blank_case value v). now rewrite B.
Qed.

Lemma guard_null (s : State) :
  blank_case value v = false -> null_case value v = true ->
  Validate.guard h v name value s = (Ret (Some null_with_allowNull), s).
Proof.
  intros B N. unfold Validate.guard. rewrite !strict_true_and.
  fold (blank_case value v) (null_case value v). now rewrite B, N.
Qed.

Lemma guard_if (s s' : State) (c : Cond) (r : jsval) :
  blank_case value v = false -> null_case value v = false ->
  opt_if (props v) = Some c ->
  call_if h name c s = (Ret r, s') ->
  truthy r = false ->
  Validate.guard h v name value s = (Ret (Some if_failing), s').
Proof.
  intros B N I C F. unfold Validate.guard. rewrite !strict_true_and.
  fold (blank_case value v) (null_case value v). rewrite B, N, I.
  unfold call_if in C. run_monad.
  destruct (Validate.call_cond h c name _) as [[x|] s1].
  - inversion C; subst. now rewrite F.
  - discriminate.
Qed.

Lemma guard_unless (s s' s'' : State) (c : Cond) (r : jsval) :
  blank_case value v = false -> null_case value v = false ->
  if_passed h name v s s' ->
  unless (props v) = Some c ->
  call_unless h name c s' = (Ret r, s'') ->
  Validate.guard h v name value s
  = (Ret (if strict_true r then Some unless_succeeding else None), s'').
Proof.
  intros B N P U C. unfold Validate.guard. rewrite !strict_true_and.
  fold (blank_case value v) (null_case value v). rewrite B, N, U.
  unfold call_unless in C.
  destruct P as [[I E]|(c' & r' & I & C' & T)]; rewrite I.
  - subst s'. run_monad.
    destruct (Validate.call_cond h c name _) as [[x|] s1];
      inversion C; subst; reflexivity.
  - unfold call_if in C'. run_monad.
    destruct (Validate.call_cond h c' name _) as [[x|] s1]; [|discriminate].
    inversion C'; subst. rewrite T. simpl.
    destruct (Validate.call_cond h c name _) as [[x|] s1];
      inversion C; subst; reflexivity.
Qed.

Lemma guard_none (s s' : State) :
  blank_case value v = false -> null_case value v = false ->
  if_passed h name v s s' ->
  unless (props v) = None ->
  Validate.guard h v name value s = (Ret None, s').
Proof.
  intros B N P U. unfold Validate.guard. rewrite !strict_true_and.
  fold (blank_case value v) (null_case value v). rewrite B, N, U.
  destruct P as [[I E]|(c' & r' & I & C' & T)]; rewrite I.
  - subst s'. reflexivity.
  - unfold call_if in C'. run_monad.
    destruct (Validate.call_cond h c' name _) as [[x|] s1]; [|discriminate].
    inversion C'; subst. now rewrite T.
Qed.

(** A rule one of the first two cases matches is skipped with nothing
    called and nothing written, whichever registry it is in. *)
Lemma Queue_rule_skipped (type : registry) (s : State) :
  blank_case value v || null_case value v = true ->
  Validate.Queue_rule h type name value v s = (Ret tt, s).
Proof.
  intros H. unfold Validate.Queue_rule, bind.
  destruct (blank_case value v) eqn:B.
  - now rewrite guard_blank.
  - simpl in H. now rewrite guard_null.
Qed.

End Guards.

(** C7, as amended.  A rule whose [allowNull] is set is skipped, with no
    predicate called and nothing enqueued or recorded, when the value is
    loosely equal to the empty string (the test the code applies; a literal
    [null] is not matched by it).  The cases are tried in the order
    blank-with-allowBlank, null-with-allowNull, [if] failing, [unless]
    succeeding, and the first that matches decides: a case that matches
    leaves the later ones unevaluated. *)
Theorem allowNull_skips_the_empty_value
    (h : Host) (type : registry) (name : string) (value : jsval) (v : Rule)
    (s : State) :
  truthy (allowNull (props v)) = true ->
  eq_empty_string value = true ->
  Validate.Queue_rule h type name value v s = (Ret tt, s)
  /\ (blank_case value v = true ->
      Validate.guard h v name value s = (Ret (Some blank_with_allowBlank), s))
  /\ (blank_case value v = false ->
      Validate.guard h v name value s = (Ret (Some null_with_allowNull), s))
  /\ (forall (v' : Rule) (value' : jsval) (s0 s1 : State),
        blank_case value' v' = false -> null_case value' v' = false ->
        (forall c r, opt_if (props v') = Some c ->
           call_if h name c s0 = (Ret r, s1) -> truthy r = false ->
           Validate.guard h v' name value' s0 = (Ret (Some if_failing), s1))
        /\ (if_passed h name v' s0 s1 ->
            forall c r s2, unless (props v') = Some c ->
              call_unless h name c s1 = (Ret r, s2) ->
              Validate.guard h v' name value' s0
              = (Ret (if strict_true r then Some unless_succeeding else None),
                 s2))).
Proof.
  intros A E.
  assert (N : null_case value v = true) by (unfold null_case; now rewrite A, E).
  repeat split.
  - apply Queue_rule_skipped. rewrite N. apply orb_true_r.
  - intros B. now apply guard_blank.
  - intros B. now apply guard_null.
  - intros c r I C F. eapply guard_if; eauto.
  - intros P c r s2 U C. eapply guard_unless; eauto.
Qed.

Lemma allowNull_skips_the_empty_value_witness :
  truthy (allowNull (props null_allowing_rule)) = true
  /\ eq_empty_string (VStr "") = true
  /\ Validate.Queue_rule signup reg_local "f" (VStr "") null_allowing_rule
       initial
     = (Ret tt, initial).
Proof.
  split; [reflexivity|]. split; [reflexivity|].
  exact (proj1 (allowNull_skips_the_empty_value signup reg_local "f" (VStr "")
                  null_allowing_rule initial eq_refl eq_refl)).
Defined.

(** C7, as stated, fails on a literal [null]: the rule
    [{ allowNull: true }] is not skipped for it, its predicate is called and
    its message recorded. *)
Example allowNull_does_not_skip_null :
  truthy (allowNull (props null_allowing_rule)) = true
  /\ observe (Validate.Queue_rule signup reg_local "f" VNull null_allowing_rule
                initial)
     = (Ret tt, [], [("f", VArr [VStr "is always invalid"])],
        [EvValidate "f" VNull]).
Proof. split; vm_compute; reflexivity. Qed.

(** C8.  A rule whose [allowBlank] is set is skipped, with no predicate
    called and nothing enqueued or recorded, when the value is an empty or
    whitespace-only string, whatever else it is configured with.  In
    particular [Validates.Length("password", { minimum: 6, allowBlank: true })]
    on an empty password: [Validate("password")] records the valid message,
    calls no predicate, and returns true; without [allowBlank] the same rule
    records "is too short (minimum is 6 characters)". *)
Theorem allowBlank_skips_blank_values
    (h : Host) (type : registry) (name str : string) (v : Rule) (s : State) :
  truthy (allowBlank (props v)) = true ->
  blank str = true ->
  Validate.Queue_rule h type name (VStr str) v s = (Ret tt, s)
  /\ observe ((Validates.Length empty_password ["password"]
                 (Some minimum_6_allowBlank) ;;
               Validate.Name empty_password "password" no_name_options)
              initial)
     = (Ret (VBool true), [], [("password", VStr "")],
        [EvEffect "password" (VStr "") (Some (valid, VStr ""))])
  /\ observe ((Validates.Length empty_password ["password"] (Some minimum_6) ;;
               Validate.Name empty_password "password" no_name_options)
              initial)
     = (Ret (VBool false), [],
        [("password", VArr [VStr "is too short (minimum is 6 characters)"])],
        [EvValidate "password" (VStr "");
         EvEffect "password"
           (VArr [VStr "is too short (minimum is 6 characters)"])
           (Some (error, VStr "is too short (minimum is 6 characters)"))]).
Proof.
  intros A B. split.
  - apply Queue_rule_skipped. unfold blank_case. simpl. now rewrite A, B.
  - split; vm_compute; reflexivity.
Qed.

Lemma allowBlank_skips_blank_values_witness :
  truthy (allowBlank (props length_rule)) = true
  /\ blank "   " = true
  /\ Validate.Queue_rule empty_password reg_local "password" (VStr "   ")
       length_rule initial
     = (Ret tt, initial).
Proof.
  split; [reflexivity|]. split; [reflexivity|].
  exact (proj1 (allowBlank_skips_blank_values empty_password reg_local
                  "password" "   " length_rule initial eq_refl eq_refl)).
Defined.

(** C10.  [Validate.Local(name)] on a name with no local rules throws: it
    indexes [GoodForm.local[name]], which is undefined, and returns no
    boolean.  The dispatcher on an unregistered name returns [null] and
    changes nothing. *)
Theorem Local_throws_on_an_unregistered_name
    (h : Host) (name : string) (s : State) :
  JsObj.get (local s) name = None ->
  Validate.Local h name s = (Throw, s)
  /\ (forall value, Validate.Queue h reg_local name value s = (Ret VNull, s))
  /\ (forall value, JsObj.get (remote s) name = None ->
        Validate.Queue h reg_remote name value s = (Ret VNull, s)).
Proof.
  intros H. repeat split.
  - unfold Validate.Local. run_monad. now rewrite H.
  - intros value. unfold Validate.Queue. run_monad. now rewrite H.
  - intros value R. unfold Validate.Queue. run_monad. now rewrite R.
Qed.

Lemma Local_throws_on_an_unregistered_name_witness :
  JsObj.get (local initial) "nobody" = None
  /\ Validate.Local signup "nobody" initial = (Throw, initial).
Proof.
  split; [reflexivity|].
  exact (proj1 (Local_throws_on_an_unregistered_name signup "nobody" initial
                  eq_refl)).
Defined.

(** ** Construction and evaluation of a rule without its pattern *)

Lemma Validation_registers_one
    (h : Host) (name : string) (options : option Options)
    (defaultMessage : option string) (remote : bool)
    (finish : Options -> Rule) (s : State) :
  (name =? "") = false ->
  let type := if remote then reg_remote else reg_local in
  exists this,
    Validation h [name] options defaultMessage remote finish s
    = (Ret tt,
       with_registry type
         (JsObj.set (registry_of type s) (extractName h name)
            (rules_of (registry_of type s) (extractName h name)
             ++ [finish this])) s)
    /\ opt_with this
       = opt_with (match options with Some o => o | None => no_options end).
Proof.
  intros N type. unfold Validation.
  set (o := match options with Some o => o | None => no_options end).
  set (this := match defaultMessage, message o with
               | Some key, None =>
                   set_message (JsObj.get defaultErrorMessages key) o
               | _, _ => o
               end).
  exists this. split.
  - destruct options; simpl; rewrite N; reflexivity.
  - subst this. destruct defaultMessage, (message o); reflexivity.
Qed.

(** C6, as amended.  Constructing a Format rule with no pattern succeeds and
    registers the rule; the missing pattern shows only when the rule's
    predicate is evaluated, and there it throws on every value (it does not
    pass silently): the dispatcher throws at that rule unless a guard skips
    it. *)
Theorem Format_without_pattern_throws_at_evaluation
    (h : Host) (name : string) (options : option Options) (s : State) :
  (name =? "") = false ->
  (forall o, options = Some o -> opt_with o = None) ->
  exists s' rules rule f,
    Validates.Format h [name] options s = (Ret tt, s')
    /\ JsObj.get (local s') (extractName h name) = Some (rules ++ [rule])
    /\ validate rule = Some f
    /\ (forall value, f value = Throw)
    /\ (forall value st,
          fst (Validate.guard h rule (extractName h name) value st) = Ret None ->
          fst (Validate.Queue_rule h reg_local (extractName h name) value rule
                 st) = Throw).
Proof.
  intros N W. unfold Validates.Format.
  destruct (Validation_registers_one h name options (Some "invalid") false
              (fun v => mkRule v (Some (Validates.Format_validate v)) false)
              s N) as (this & E & P).
  assert (T : opt_with this = None).
  { rewrite P. destruct options as [o|]; [now apply W | reflexivity]. }
  eexists _, (rules_of (local s) (extractName h name)), _, _.
  split; [exact E|].
  split; [simpl; apply get_set_same|].
  split; [reflexivity|]. split.
  - intros value. unfold Validates.Format_validate. now rewrite T.
  - intros value st G. unfold Validate.Queue_rule, bind.
    destruct (Validate.guard h _ _ value st) as [[[g|]|] st1];
      simpl in G; try discriminate.
    unfold Validate.call_validate. simpl. run_monad.
    unfold Validates.Format_validate. now rewrite T.
Qed.

Lemma Format_without_pattern_throws_at_evaluation_witness :
  ("email" =? "") = false
  /\ (forall o, Some withOption_only = Some o -> opt_with o = None)
  /\ exists s',
       Validates.Format signup ["email"] (Some withOption_only) initial
       = (Ret tt, s').
Proof.
  assert (W : forall o, Some withOption_only = Some o -> opt_with o = None).
  { intros o E. inversion E. reflexivity. }
  split; [reflexivity|]. split; [exact W|].
  destruct (Format_without_pattern_throws_at_evaluation signup "email"
              (Some withOption_only) initial eq_refl W)
    as (s' & _ & _ & _ & E & _).
  exists s'. exact E.
Defined.

(** C6, as stated, fails: [Validates.Format("email")], with no pattern,
    returns normally and registers its rule; the failure comes later, when
    [Validate("email")] evaluates the rule and throws.  So does the rule
    given its pattern as [withOption], which [Validates.Format] does not
    read. *)
Example Format_without_pattern_is_constructed :
  fst (Validates.Format signup ["email"] None initial) = Ret tt
  /\ JsObj.keys (local (snd (Validates.Format signup ["email"] None initial)))
     = ["email"]
  /\ observe ((Validates.Format signup ["email"] None ;;
               Validate.Name signup "email" no_name_options) initial)
     = (Throw, [], [], [EvValidate "email" (VStr "a@b.com")])
  /\ observe ((Validates.Format signup ["email"] (Some withOption_only) ;;
               Validate.Name signup "email" no_name_options) initial)
     = (Throw, [], [], [EvValidate "email" (VStr "a@b.com")]).
Proof. repeat split; vm_compute; reflexivity. Qed.

(** ** Frames *)
Section Frames.
Variable R : State -> State -> Prop.
Hypothesis R_refl : forall s, R s s.
Hypothesis R_trans : forall a b c, R a b -> R b c -> R a c.

Lemma keeps_ret {A} (a : A) : keeps R (ret a).
Proof. intros s. apply R_refl. Qed.

Lemma keeps_throw {A} : keeps R (@throw A).
Proof. intros s. apply R_refl. Qed.

Lemma keeps_lift {A} (o : outcome A) : keeps R (lift o).
Proof. intros s. apply R_refl. Qed.

Lemma keeps_gets {A} (f : State -> A) : keeps R (gets f).
Proof. intros s. apply R_refl. Qed.

Lemma keeps_bind {A B} (m : M A) (f : A -> M B) :
  keeps R m -> (forall a, keeps R (f a)) -> keeps R (bind m f).
Proof.
  intros Hm Hf s. unfold bind. specialize (Hm s).
  destruct (m s) as [[a|] s1]; simpl in *; auto.
  eapply R_trans; [exact Hm | apply Hf].
Qed.

Lemma keeps_for_each {A} (l : list A) (body : A -> M unit) :
  (forall x, keeps R (body x)) -> keeps R (for_each l body).
Proof.
  intros Hb. induction l as [|x l IH]; simpl.
  - apply keeps_ret.
  - apply keeps_bind; auto.
Qed.

Lemma keeps_modify (f : State -> State) :
  (forall s, R s (f s)) -> keeps R (modify f).
Proof. intros Hf s. apply Hf. Qed.

End Frames.

Lemma validations_app (a b : list Event) :
  validations (a ++ b) = validations a ++ validations b.
Proof.
  induction a as [|e a IH]; simpl; auto.
  destruct e; simpl; now rewrite IH.
Qed.

Lemma same_response_refl (s : State) : same_response s s.
Proof. reflexivity. Qed.

Lemma same_response_trans (a b c : State) :
  same_response a b -> same_response b c -> same_response a c.
Proof. unfold same_response. congruence. Qed.

Lemma quiet_refl (s : State) : quiet s s.
Proof. split; reflexivity. Qed.

Lemma quiet_trans (a b c : State) : quiet a b -> quiet b c -> quiet a c.
Proof. unfold quiet. intros [] []. split; congruence. Qed.

Lemma emit_same_response (e : Event) : keeps same_response (emit e).
Proof. intros s. destruct s; reflexivity. Qed.

Lemma set_queue_same_response (f : State -> JsObj.t jsval) :
  keeps same_response (modify (fun s => with_queue (f s) s)).
Proof. intros s. destruct s; reflexivity. Qed.

Lemma set_queue_quiet (f : State -> JsObj.t jsval) :
  keeps quiet (modify (fun s => with_queue (f s) s)).
Proof. intros s. destruct s; split; reflexivity. Qed.

(** The frame rules, as tactics. *)
Ltac frame_with refl trans leaf :=
  repeat first
    [ leaf
    | apply (keeps_bind _ trans); [|intros ?]
    | apply (keeps_ret _ refl)
    | apply (keeps_throw _ refl)
    | apply (keeps_lift _ refl)
    | apply (keeps_gets _ refl)
    | apply (keeps_for_each _ refl trans); intros ?
    | apply emit_same_response
    | apply set_queue_same_response
    | apply set_queue_quiet
    | match goal with
      | |- keeps _ (if ?b then _ else _) => destruct b
      | |- keeps _ (match ?x with _ => _ end) => destruct x
      end ].

Tactic Notation "frame_response" "using" tactic(leaf) :=
  frame_with same_response_refl same_response_trans leaf.
Tactic Notation "frame_quiet" "using" tactic(leaf) :=
  frame_with quiet_refl quiet_trans leaf.

Section EngineFrames.
Variable h : Host.

Lemma Effect_quiet (name : string) (x : jsval) :
  keeps quiet (Validate.Effect h name x).
Proof.
  intros s. unfold Validate.Effect. run_monad. unfold quiet.
  destruct s; simpl. split; auto.
  rewrite validations_app. simpl. apply app_nil_r.
Qed.

Lemma onreadystatechange_quiet (readyState status : Z) (json : JsObj.t jsval) :
  keeps quiet (Validate.onreadystatechange h readyState status json).
Proof.
  unfold Validate.onreadystatechange. simpl.
  destruct (_ && _ && _)%bool; frame_quiet using (apply Effect_quiet).
Qed.

Lemma Remote_quiet : keeps quiet (Validate.Remote h).
Proof.
  unfold Validate.Remote.
  frame_quiet using (apply onreadystatechange_quiet).
  intros s. destruct s; split; simpl; auto.
    rewrite validations_app. simpl. apply app_nil_r.
Qed.

Lemma Run_loop_quiet (silent : jsval) (names : list string) (x : jsval) :
  keeps quiet (Validate.Run_loop h silent names x).
Proof.
  revert x. induction names as [|n names IH]; intros x; simpl.
  - apply keeps_ret, quiet_refl.
  - frame_quiet using (first [apply Effect_quiet | apply IH]).
Qed.

(** The flush writes no entry of the response map and calls no predicate. *)
Lemma Run_quiet (silent : jsval) : keeps quiet (Validate.Run h silent).
Proof.
  unfold Validate.Run.
  frame_quiet using (first [apply Remote_quiet | apply Run_loop_quiet]).
Qed.

Lemma Local_loop_same_response (name : string) (rules : list Rule) :
  keeps same_response (Validate.Local_loop h name rules).
Proof.
  induction rules as [|v rules IH]; simpl.
  - apply keeps_ret, same_response_refl.
  - unfold Validate.call_validate. frame_response using (exact IH).
Qed.

Lemma guard_same_response (v : Rule) (name : string) (value : jsval) :
  keeps same_response (Validate.guard h v name value).
Proof.
  unfold Validate.guard, Validate.call_cond, Validate.Local.
  frame_response using (apply Local_loop_same_response).
Qed.

Lemma pushParameters_loop_same_response (incls : list string) :
  keeps same_response (Validate.pushParameters_loop h incls).
Proof.
  induction incls as [|incl incls IH]; simpl.
  - apply keeps_ret, same_response_refl.
  - destruct (Helpers.split_pair incl). frame_response using (exact IH).
Qed.

(** The remote dispatch writes no entry of the response map. *)
Lemma Queue_remote_same_response (name : string) (value : jsval) :
  keeps same_response (Validate.Queue h reg_remote name value).
Proof.
  unfold Validate.Queue, Validate.Queue_rule, Validate.call_pushParameters.
  frame_response using
    (first [apply guard_same_response
           | apply pushParameters_loop_same_response]).
Qed.

End EngineFrames.

(** ** Remote before local *)

(** [Validate.Name], read at its dispatches. *)
Lemma Name_unfold (h : Host) (name : string) (options : NameOptions)
    (s : State) :
  let name' := extractName h name in
  let value := getValuesByName h name' (scope options) in
  eq_undefined value = false ->
  Validate.Name h name options s
  = (remote <- (if truthy (only_local options) then ret VUndef
                else Validate.Queue h reg_remote name' value) ;;
     (if truthy remote then ret tt
      else _ <- Validate.Queue h reg_local name' value ;; ret tt) ;;
     Name_return h name' options) (reset_unless_deferred options s).
Proof.
  intros name' value V. unfold Validate.Name, Name_return, reset_unless_deferred.
  fold name'. fold value. rewrite V.
  unfold bind at 1. destruct (truthy (defer options)); reflexivity.
Qed.

Lemma Name_return_quiet (h : Host) (name : string) (options : NameOptions) :
  keeps quiet (Name_return h name options).
Proof.
  unfold Name_return. frame_quiet using (apply Run_quiet).
Qed.

(** C4, as amended.  In a [Validate.Name] call without [options.local] on a
    field that has a value, the remote dispatch returns the field's entry in
    the queue.  When that entry is truthy the local dispatch is not run: the
    rest of the call writes nothing to the response map and calls no
    predicate.  When it is falsy (no remote rule, every remote rule skipped,
    or an empty value enqueued) the local dispatch runs next. *)
Theorem truthy_queue_entry_decides_the_local_dispatch
    (h : Host) (name : string) (options : NameOptions) (s s1 : State)
    (x : jsval) :
  let name' := extractName h name in
  let value := getValuesByName h name' (scope options) in
  let s0 := reset_unless_deferred options s in
  truthy (only_local options) = false ->
  eq_undefined value = false ->
  Validate.Queue h reg_remote name' value s0 = (Ret x, s1) ->
  (truthy x = true ->
     x = JsObj.read (queue s1) name'
     /\ Validate.Name h name options s = Name_return h name' options s1
     /\ response (snd (Validate.Name h name options s)) = response s0
     /\ validations (trace (snd (Validate.Name h name options s)))
        = validations (trace s1))
  /\ (truthy x = false ->
        Validate.Name h name options s
        = (_ <- Validate.Queue h reg_local name' value ;;
           Name_return h name' options) s1).
Proof.
  intros name' value s0 L V Q.
  pose proof (Name_unfold h name options s V) as E.
  fold name' value s0 in E. rewrite L in E.
  unfold bind at 1 in E. rewrite Q in E.
  split; intros T.
  - rewrite T in E. unfold bind at 1 in E. simpl in E.
    assert (X : x = JsObj.read (queue s1) name').
    { unfold Validate.Queue in Q. run_monad.
      destruct (JsObj.get (remote s0) name') as [rules|].
      - destruct (for_each rules _ s0) as [[[]|] s2];
          inversion Q; subst; reflexivity.
      - inversion Q; subst. discriminate. }
    split; [exact X|]. split; [exact E|].
    rewrite E.
    destruct (Name_return_quiet h name' options s1) as [R1 R2].
    split; [|exact R2].
    rewrite R1.
    pose proof (Queue_remote_same_response h name' value s0) as F.
    rewrite Q in F. exact F.
  - rewrite T in E. rewrite E. unfold bind.
    destruct (Validate.Queue h reg_local name' value s1) as [[y|] s2];
      reflexivity.
Qed.

Lemma truthy_queue_entry_decides_the_local_dispatch_witness :
  truthy (only_local no_name_options) = false
  /\ eq_undefined (getValuesByName signup "email" VUndef) = false
  /\ fst (Validate.Queue signup reg_remote "email" (VStr "a@b.com")
            (with_response [] (email_rules signup))) = Ret (VStr "a@b.com")
  /\ Validate.Name signup "email" no_name_options (email_rules signup)
     = Name_return signup "email" no_name_options
         (snd (Validate.Queue signup reg_remote "email" (VStr "a@b.com")
                 (with_response [] (email_rules signup)))).
Proof.
  split; [reflexivity|]. split; [reflexivity|]. split; [reflexivity|].
  refine (proj1 (proj2 (proj1
    (truthy_queue_entry_decides_the_local_dispatch signup "email"
       no_name_options (email_rules signup) _ (VStr "a@b.com")
       eq_refl eq_refl _) eq_refl))).
  vm_compute. reflexivity.
Defined.

(** C4, as stated, fails on an empty field: the remote dispatch enqueues
    the value [""], and the call goes on to evaluate the local rule and
    record its error. *)
Example an_empty_value_is_enqueued_and_checked_locally :
  observe (Validate.Queue empty_email reg_remote "email" (VStr "")
             (email_rules empty_email))
  = (Ret (VStr ""), [("email", VStr "")], [], [])
  /\ observe (Validate.Name empty_email "email" deferred
                (email_rules empty_email))
     = (Ret (VArr [VStr "can't be blank"]),
        [("email", VStr "")],
        [("email", VArr [VStr "can't be blank"])],
        [EvValidate "email" (VStr "")]).
Proof. split; vm_compute; reflexivity. Qed.

(** ** Calls that only read the local registry *)

Lemma with_trace_nil (s : State) : with_trace (trace s ++ []) s = s.
Proof. rewrite app_nil_r. apply with_trace_trace. Qed.

Lemma rl_ret {A} (a : A) : reads_local_only (ret a).
Proof.
  intros L. exists (Ret a), []. intros s _. unfold ret.
  now rewrite with_trace_nil.
Qed.

Lemma rl_throw {A} : reads_local_only (@throw A).
Proof.
  intros L. exists Throw, []. intros s _. unfold throw.
  now rewrite with_trace_nil.
Qed.

Lemma rl_lift {A} (o : outcome A) : reads_local_only (lift o).
Proof.
  intros L. exists o, []. intros s _. unfold lift.
  now rewrite with_trace_nil.
Qed.

Lemma rl_emit (e : Event) : reads_local_only (emit e).
Proof. intros L. exists (Ret tt), [e]. intros s _. reflexivity. Qed.

Lemma rl_bind {A B} (m : M A) (f : A -> M B) :
  reads_local_only m -> (forall a, reads_local_only (f a)) ->
  reads_local_only (bind m f).
Proof.
  intros Hm Hf L. destruct (Hm L) as (o & t & E).
  destruct o as [a|].
  - destruct (Hf a L) as (o' & t' & E').
    exists o', (t ++ t'). intros s HL. unfold bind. rewrite (E s HL).
    rewrite E' by (destruct s; exact HL).
    destruct s; simpl. now rewrite app_assoc.
  - exists Throw, t. intros s HL. unfold bind. now rewrite (E s HL).
Qed.

Lemma rl_local {A} (k : JsObj.t (list Rule) -> M A) :
  (forall L, reads_local_only (k L)) ->
  reads_local_only (bind (gets local) k).
Proof.
  intros Hk L. destruct (Hk L L) as (o & t & E).
  exists o, t. intros s HL. unfold bind, gets. rewrite HL. now apply E.
Qed.

Ltac reads_local leaf :=
  repeat first
    [ leaf
    | apply rl_local; intros ?
    | apply rl_bind; [|intros ?]
    | apply rl_ret
    | apply rl_throw
    | apply rl_lift
    | apply rl_emit
    | match goal with
      | |- reads_local_only (if ?b then _ else _) => destruct b
      | |- reads_local_only (match ?x with _ => _ end) => destruct x
      end ].

Section LocalDispatch.
Variable h : Host.
Variables (name : string) (value : jsval).

Lemma Local_loop_reads_local (n : string) (rules : list Rule) :
  reads_local_only (Validate.Local_loop h n rules).
Proof.
  induction rules as [|v rules IH]; simpl.
  - apply rl_ret.
  - unfold Validate.call_validate. reads_local ltac:(exact IH).
Qed.

Lemma guard_reads_local (v : Rule) :
  reads_local_only (Validate.guard h v name value).
Proof.
  unfold Validate.guard, Validate.call_cond, Validate.Local.
  reads_local ltac:(apply Local_loop_reads_local).
Qed.

(** A guard's decision depends on the state through the local registry
    alone, and it changes nothing but the trace. *)
Lemma guard_at (v : Rule) (s0 s : State) :
  local s = local s0 ->
  exists t, Validate.guard h v name value s
            = (fst (Validate.guard h v name value s0),
               with_trace (trace s ++ t) s).
Proof.
  intros HL. destruct (guard_reads_local v (local s0)) as (o & t & E).
  exists t. rewrite (E s HL), (E s0 eq_refl). reflexivity.
Qed.

Lemma holds_errors_with_trace (acc : list jsval) (t : list Event) (s : State) :
  holds_errors name acc s -> holds_errors name acc (with_trace t s).
Proof. destruct s; exact (fun H => H). Qed.

(** One turn of the dispatcher's loop on a local rule appends the rule's
    messages to the field's error list. *)
Lemma Queue_rule_appends (s0 s : State) (v : Rule) (acc m : list jsval) :
  verdict h s0 name value v = Ret m ->
  local s = local s0 ->
  holds_errors name acc s ->
  exists s', Validate.Queue_rule h reg_local name value v s = (Ret tt, s')
             /\ local s' = local s0
             /\ holds_errors name (acc ++ m) s'.
Proof.
  intros V HL HE. unfold verdict in V.
  destruct (guard_at v s0 s HL) as (t & G).
  unfold Validate.Queue_rule, bind. rewrite G.
  destruct (fst (Validate.guard h v name value s0)) as [[g|]|];
    try discriminate.
  - inversion V; subst. eexists. split; [reflexivity|]. split.
    + destruct s; exact HL.
    + rewrite app_nil_r. now apply holds_errors_with_trace.
  - unfold Validate.call_validate.
    destruct (validate v) as [f|]; try discriminate.
    run_monad. destruct (f value) as [e|]; try discriminate.
    inversion V; subst. destruct (truthy e) eqn:T.
    + unfold js_or. simpl.
      destruct HE as [[F A]|A].
      * subst acc. destruct s; simpl in *. rewrite F. simpl.
        eexists. split; [reflexivity|]. split; [exact HL|].
        right. simpl. apply read_set_same.
      * destruct s; simpl in *. rewrite A. simpl.
        eexists. split; [reflexivity|]. split; [exact HL|].
        right. simpl. apply read_set_same.
    + eexists. split; [reflexivity|]. split.
      * destruct s; exact HL.
      * rewrite app_nil_r. destruct s; exact HE.
Qed.

Lemma Queue_loop_appends (s0 : State) (rules : list Rule)
    (ms : list (list jsval)) :
  Forall2 (fun v m => verdict h s0 name value v = Ret m) rules ms ->
  forall (s : State) (acc : list jsval),
    local s = local s0 ->
    holds_errors name acc s ->
    exists s', for_each rules (Validate.Queue_rule h reg_local name value) s
               = (Ret tt, s')
               /\ local s' = local s0
               /\ holds_errors name (acc ++ List.concat ms) s'.
Proof.
  induction 1 as [|v m rules ms V _ IH]; intros s acc HL HE; simpl.
  - exists s. rewrite app_nil_r. auto.
  - destruct (Queue_rule_appends s0 s v acc m V HL HE) as (s1 & E & HL1 & HE1).
    destruct (IH s1 (acc ++ m) HL1 HE1) as (s2 & E2 & HL2 & HE2).
    exists s2. unfold bind. rewrite E, E2. rewrite <- app_assoc in HE2. auto.
Qed.

End LocalDispatch.

(** ** Accumulation of local errors *)

(** C9.  The local dispatch of a field whose rules are [rules], in
    registration order (a later registration goes to the end of the list):
    when the rules contribute the messages [ms], rule by rule, and at least
    one message is contributed, the field's entry in the response map ends
    as the single array of the messages it held followed by all of [ms] in
    rule order, each appended after the earlier ones; the dispatch returns
    that array.  A field failing a presence rule and a format rule gets an
    error list of length 2. *)
Theorem local_errors_accumulate_in_registration_order
    (h : Host) (name : string) (value : jsval) (s : State)
    (rules : list Rule) (ms : list (list jsval)) (acc : list jsval) :
  JsObj.get (local s) name = Some rules ->
  Forall2 (fun v m => verdict h s name value v = Ret m) rules ms ->
  holds_errors name acc s ->
  acc ++ List.concat ms <> [] ->
  (exists s',
     Validate.Queue h reg_local name value s
     = (Ret (VArr (acc ++ List.concat ms)), s')
     /\ JsObj.read (response s') name = VArr (acc ++ List.concat ms))
  /\ (forall name0 options defaultMessage finish,
        (name0 =? "") = false -> extractName h name0 = name ->
        exists this,
          JsObj.get
            (local (snd (Validation h [name0] options defaultMessage false
                           finish s))) name
          = Some (rules ++ [finish this])).
Proof.
  intros G V HE NE. split.
  - destruct (Queue_loop_appends h name value s rules ms V s acc eq_refl HE)
      as (s1 & E & _ & HE1).
    unfold Validate.Queue. unfold bind at 1. unfold gets at 1. simpl.
    rewrite G. unfold bind at 1. rewrite E.
    destruct HE1 as [[_ A]|A]; [contradiction|].
    run_monad. rewrite A. simpl. rewrite A.
    eexists. split; [reflexivity|exact A].
  - intros name0 options defaultMessage finish N X.
    destruct (Validation_registers_one h name0 options defaultMessage false
                finish s N) as (this & E & _).
    exists this. rewrite E, X. simpl. unfold rules_of. rewrite G.
    destruct s; simpl. apply get_set_same.
Qed.

Lemma local_errors_accumulate_in_registration_order_witness :
  JsObj.get (local (presence_then_format blank_email)) "email"
  = Some [presence_rule; format_rule]
  /\ Forall2 (fun v m =>
                verdict blank_email (presence_then_format blank_email) "email"
                  (VStr "  ") v = Ret m)
       [presence_rule; format_rule]
       [[VStr "can't be blank"]; [VStr "is invalid"]]
  /\ holds_errors "email" [] (presence_then_format blank_email)
  /\ exists s',
       Validate.Queue blank_email reg_local "email" (VStr "  ")
         (presence_then_format blank_email)
       = (Ret (VArr [VStr "can't be blank"; VStr "is invalid"]), s')
       /\ JsObj.read (response s') "email"
          = VArr [VStr "can't be blank"; VStr "is invalid"].
Proof.
  assert (G : JsObj.get (local (presence_then_format blank_email)) "email"
              = Some [presence_rule; format_rule]) by reflexivity.
  assert (V : Forall2 (fun v m =>
                verdict blank_email (presence_then_format blank_email) "email"
                  (VStr "  ") v = Ret m)
                [presence_rule; format_rule]
                [[VStr "can't be blank"]; [VStr "is invalid"]]).
  { repeat constructor. }
  assert (HE : holds_errors "email" [] (presence_then_format blank_email)).
  { left. split; reflexivity. }
  split; [exact G|]. split; [exact V|]. split; [exact HE|].
  exact (proj1 (local_errors_accumulate_in_registration_order blank_email
                  "email" (VStr "  ") (presence_then_format blank_email)
                  [presence_rule; format_rule]
                  [[VStr "can't be blank"]; [VStr "is invalid"]] []
                  G V HE ltac:(discriminate))).
Defined.

(** ** What the flush returns and reports *)
Section Flush.
Variable h : Host.

Lemma Effect_span_with_trace (t : list Event) (s : State) (name : string)
    (x : jsval) :
  Validate.Effect_span h (with_trace t s) name x = Validate.Effect_span h s name x.
Proof. destruct s; reflexivity. Qed.

(** A loop of reports appends one event per name and changes nothing else. *)
Lemma report_loop (f : string -> jsval) (names : list string) (s : State) :
  for_each names (fun name => Validate.Effect h name (f name)) s
  = (Ret tt,
     with_trace
       (trace s ++
        map (fun name =>
               EvEffect name (f name) (Validate.Effect_span h s name (f name)))
            names) s).
Proof.
  revert s. induction names as [|n names IH]; intros s; simpl.
  - now rewrite with_trace_nil.
  - unfold bind at 1. unfold Validate.Effect at 1. run_monad.
    rewrite IH. simpl. rewrite with_trace_twice, <- app_assoc. simpl.
    erewrite map_ext; [reflexivity|].
    intros a. now rewrite Effect_span_with_trace.
Qed.

(** A batch with a parameter to send: every property of the queue is
    reported as loading once, then the request goes out. *)
Lemma Remote_sends (s : State) :
  sends h s = true ->
  Validate.Remote h s
  = (Ret true,
     with_trace (trace s ++ loading_reports h s ++ [request h s]) s).
Proof.
  unfold sends. intros S. apply negb_true_iff in S.
  unfold Validate.Remote. unfold bind at 1. unfold gets at 1.
  rewrite S. unfold Validate.onreadystatechange. simpl.
  unfold bind at 1. unfold bind at 1. unfold gets at 1.
  rewrite (report_loop (fun _ => VUndef)).
  run_monad. unfold request, loading_reports.
  destruct s; simpl. now rewrite <- app_assoc.
Qed.

(** A batch with nothing to send: no request, no report, no change. *)
Lemma Remote_idle (s : State) :
  sends h s = false -> Validate.Remote h s = (Ret false, s).
Proof.
  unfold sends. intros S. apply negb_false_iff in S.
  unfold Validate.Remote. unfold bind, gets. now rewrite S.
Qed.

Lemma last_cons_default {A} (a x : A) (l : list A) :
  last (a :: l) x = last l a.
Proof.
  revert a x. induction l as [|b l IH]; intros a x; auto.
  change (last (a :: b :: l) x) with (last (b :: l) x).
  rewrite IH. symmetry. apply IH.
Qed.

(** The loop of [Validate.Run] returns the last value it read. *)
Lemma Run_loop_returns (silent : jsval) (names : list string) (x : jsval)
    (s : State) :
  exists s',
    Validate.Run_loop h silent names x s
    = (Ret (last (map (JsObj.read (response s)) names) x), s')
    /\ quiet s s'.
Proof.
  revert x s. induction names as [|n names IH]; intros x s.
  - exists s. split; [reflexivity|apply quiet_refl].
  - cbn [Validate.Run_loop]. unfold bind at 1. unfold gets at 1.
    unfold bind at 1.
    assert (E : exists s1,
               (if truthy silent then ret tt
                else Validate.Effect h n (JsObj.read (response s) n)) s
               = (Ret tt, s1) /\ quiet s s1).
    { destruct (truthy silent).
      - exists s. split; [reflexivity|apply quiet_refl].
      - eexists. split; [reflexivity|].
        apply (Effect_quiet h n (JsObj.read (response s) n) s). }
    destruct E as (s1 & E & Q1). rewrite E.
    destruct (IH (JsObj.read (response s) n) s1) as (s2 & E2 & Q2).
    exists s2. split.
    + rewrite E2. destruct Q1 as [R1 _]. rewrite R1.
      f_equal. f_equal. cbn [map]. symmetry. apply last_cons_default.
    + eapply quiet_trans; eauto.
Qed.

(** What [Validate.Run] returns: false when it sends a request; otherwise
    whether the last field of the response map is valid, which is false
    when the map is empty. *)
Lemma Run_returns (silent : jsval) (s : State) :
  fst (Validate.Run h silent s)
  = Ret (if sends h s then false
         else Status_eqb (parseResponse (last_entry (response s))) valid).
Proof.
  unfold Validate.Run. unfold bind at 1.
  destruct (sends h s) eqn:S.
  - rewrite Remote_sends by exact S. reflexivity.
  - rewrite Remote_idle by exact S.
    unfold bind at 1. unfold bind at 1. unfold gets at 1.
    destruct (Run_loop_returns silent (JsObj.keys (response s)) VUndef s)
      as (s' & E & _).
    rewrite E. reflexivity.
Qed.

(** A flush that sends: each property of the queue is reported as loading
    once, the request follows, the queue is emptied and the response map is
    as it was. *)
Lemma Run_sends (silent : jsval) (s : State) :
  sends h s = true ->
  Validate.Run h silent s
  = (Ret false,
     with_queue []
       (with_trace (trace s ++ loading_reports h s ++ [request h s]) s)).
Proof.
  intros S. unfold Validate.Run. unfold bind at 1.
  rewrite Remote_sends by exact S. reflexivity.
Qed.

(** After a flush the queue is empty, so a later change of state of its
    request that is not a successful completion reports nothing, as long as
    no call has queued a field since. *)
Lemma readystatechange_on_an_empty_queue (readyState status : Z)
    (json : JsObj.t jsval) (s : State) :
  queue s = [] ->
  ((readyState =? 4) && (200 <=? status) && (status <? 300))%Z = false ->
  Validate.onreadystatechange h readyState status json s = (Ret tt, s).
Proof.
  intros Q C. unfold Validate.onreadystatechange. rewrite C. simpl.
  unfold bind, gets. rewrite Q. reflexivity.
Qed.

(** A successful completion reports each property of the payload once, with
    the payload's value for it. *)
Lemma completion_reports_each_entry (status : Z) (json : JsObj.t jsval)
    (s : State) :
  ((200 <=? status) && (status <? 300))%Z = true ->
  Validate.onreadystatechange h 4 status json s
  = (Ret tt,
     with_trace
       (trace s ++
        map (fun name =>
               EvEffect name (JsObj.read json name)
                 (Validate.Effect_span h s name (JsObj.read json name)))
            (JsObj.keys json)) s).
Proof.
  intros C. unfold Validate.onreadystatechange. simpl. rewrite C.
  apply (report_loop (JsObj.read json)).
Qed.

End Flush.

(** The properties of an object built by assignments are distinct. *)
Lemma keys_set {V} (o : JsObj.t V) (k : string) (v : V) :
  JsObj.keys (JsObj.set o k v)
  = if existsb (String.eqb k) (JsObj.keys o) then JsObj.keys o
    else JsObj.keys o ++ [k].
Proof.
  induction o as [|[k' v'] o IH]; simpl; auto.
  destruct (k =? k') eqn:E; simpl; auto.
  rewrite IH. now destruct (existsb _ _).
Qed.

Lemma keys_set_NoDup {V} (o : JsObj.t V) (k : string) (v : V) :
  NoDup (JsObj.keys o) -> NoDup (JsObj.keys (JsObj.set o k v)).
Proof.
  intros N. rewrite keys_set. destruct (existsb _ _) eqn:E; auto.
  apply NoDup_app; auto.
  - repeat constructor. intros [].
  - intros x I [<-|[]].
    assert (existsb (String.eqb k) (JsObj.keys o) = true); [|congruence].
    apply existsb_exists. exists k. split; auto. apply String.eqb_refl.
Qed.

(** ** The queue as a set of fields *)

Lemma queue_distinct_refl (s : State) : queue_distinct s s.
Proof. exact (fun H => H). Qed.

Lemma queue_distinct_trans (a b c : State) :
  queue_distinct a b -> queue_distinct b c -> queue_distinct a c.
Proof. unfold queue_distinct. auto. Qed.

Lemma emit_queue_distinct (e : Event) : keeps queue_distinct (emit e).
Proof. intros s. destruct s; exact (fun H => H). Qed.

Lemma set_queue_distinct (k : string) (v : jsval) :
  keeps queue_distinct
    (modify (fun s => with_queue (JsObj.set (queue s) k v) s)).
Proof. intros s. unfold queue_distinct. simpl. apply keys_set_NoDup. Qed.

Lemma reset_queue_distinct : keeps queue_distinct (modify (with_queue [])).
Proof. intros s. destruct s; intros _. constructor. Qed.

Lemma set_response_queue_distinct (f : State -> JsObj.t jsval) :
  keeps queue_distinct (modify (fun s => with_response (f s) s)).
Proof. intros s. destruct s; exact (fun H => H). Qed.

Tactic Notation "frame_queue" "using" tactic(leaf) :=
  frame_with queue_distinct_refl queue_distinct_trans
    ltac:(first [ leaf
                | apply emit_queue_distinct
                | apply set_queue_distinct
                | apply reset_queue_distinct
                | apply set_response_queue_distinct ]).

Section QueueKeys.
Variable h : Host.

Lemma Effect_queue_distinct (name : string) (x : jsval) :
  keeps queue_distinct (Validate.Effect h name x).
Proof. unfold Validate.Effect. frame_queue using fail. Qed.

Lemma Local_loop_queue_distinct (name : string) (rules : list Rule) :
  keeps queue_distinct (Validate.Local_loop h name rules).
Proof.
  induction rules as [|v rules IH]; simpl.
  - apply keeps_ret, queue_distinct_refl.
  - unfold Validate.call_validate. frame_queue using (exact IH).
Qed.

Lemma guard_queue_distinct (v : Rule) (name : string) (value : jsval) :
  keeps queue_distinct (Validate.guard h v name value).
Proof.
  unfold Validate.guard, Validate.call_cond, Validate.Local.
  frame_queue using (apply Local_loop_queue_distinct).
Qed.

Lemma pushParameters_loop_queue_distinct (incls : list string) :
  keeps queue_distinct (Validate.pushParameters_loop h incls).
Proof.
  induction incls as [|incl incls IH]; simpl.
  - apply keeps_ret, queue_distinct_refl.
  - destruct (Helpers.split_pair incl). frame_queue using (exact IH).
Qed.

Lemma Queue_queue_distinct (type : registry) (name : string) (value : jsval) :
  keeps queue_distinct (Validate.Queue h type name value).
Proof.
  unfold Validate.Queue, Validate.Queue_rule, Validate.call_pushParameters,
    Validate.call_validate.
  frame_queue using
    (first [ apply guard_queue_distinct
           | apply pushParameters_loop_queue_distinct ]).
Qed.

Lemma onreadystatechange_queue_distinct (readyState status : Z)
    (json : JsObj.t jsval) :
  keeps queue_distinct (Validate.onreadystatechange h readyState status json).
Proof.
  unfold Validate.onreadystatechange. simpl.
  destruct (_ && _ && _)%bool; frame_queue using (apply Effect_queue_distinct).
Qed.

Lemma Run_queue_distinct (silent : jsval) :
  keeps queue_distinct (Validate.Run h silent).
Proof.
  assert (L : forall names x,
            keeps queue_distinct (Validate.Run_loop h silent names x)).
  { induction names as [|n names IH]; intros x; simpl.
    - apply keeps_ret, queue_distinct_refl.
    - frame_queue using (first [apply Effect_queue_distinct | apply IH]). }
  unfold Validate.Run, Validate.Remote.
  frame_queue using
    (first [ apply onreadystatechange_queue_distinct | apply L ]).
Qed.

Lemma Name_queue_distinct (name : string) (options : NameOptions) :
  keeps queue_distinct (Validate.Name h name options).
Proof.
  unfold Validate.Name.
  frame_queue using
    (first [ apply Queue_queue_distinct | apply Run_queue_distinct
           | apply (keeps_modify queue_distinct (with_response []));
             intros s; destruct s; exact (fun H => H) ]).
Qed.

Lemma All_queue_distinct (form : jsval) :
  keeps queue_distinct (Validate.All h form).
Proof.
  unfold Validate.All.
  frame_queue using
    (first [ apply Name_queue_distinct | apply Run_queue_distinct
           | apply (keeps_modify queue_distinct (with_response []));
             intros s; destruct s; exact (fun H => H) ]).
Qed.

(** Over distinct names, a loop of loading reports gives each of them one
    report. *)
Lemma reports_of_loading_loop (s : State) (names : list string)
    (name : string) :
  NoDup names ->
  reports name
    (map (fun n => EvEffect n VUndef (Validate.Effect_span h s n VUndef)) names)
  = if existsb (String.eqb name) names then [loading] else [].
Proof.
  induction 1 as [|n names NI _ IH]; simpl; auto.
  rewrite IH. rewrite (String.eqb_sym name n).
  destruct (n =? name) eqn:E; simpl; auto.
  apply String.eqb_eq in E. subst n.
  destruct (existsb (String.eqb name) names) eqn:X; auto.
  apply existsb_exists in X. destruct X as (y & I & Y).
  apply String.eqb_eq in Y. subst y. contradiction.
Qed.

(** In a queue of distinct fields, the flush reports each field once. *)
Lemma flush_reports_each_field_once (s : State) (name : string) :
  NoDup (JsObj.keys (queue s)) ->
  In name (JsObj.keys (queue s)) ->
  reports name (loading_reports h s) = [loading].
Proof.
  intros N I. unfold loading_reports. rewrite reports_of_loading_loop by exact N.
  assert (X : existsb (String.eqb name) (JsObj.keys (queue s)) = true).
  { apply existsb_exists. exists name. split; auto. apply String.eqb_refl. }
  now rewrite X.
Qed.

End QueueKeys.

(** A change of state that is not a successful completion reports every
    property the queue holds then as loading: [loadingState], the flag that
    would stop it, is never set. *)
Lemma readystatechange_reports_the_queue (h : Host) (readyState status : Z)
    (json : JsObj.t jsval) (s : State) :
  ((readyState =? 4) && (200 <=? status) && (status <? 300))%Z = false ->
  Validate.onreadystatechange h readyState status json s
  = (Ret tt, with_trace (trace s ++ loading_reports h s) s).
Proof.
  intros C. unfold Validate.onreadystatechange. rewrite C. simpl.
  unfold bind at 1. unfold gets at 1.
  apply (report_loop h (fun _ => VUndef)).
Qed.

(** ** Where the code departs from the claims *)

(** C1 (the code departs from it).  [Validate.Run] returns false when it
    sends a request, and otherwise whether the last field of the response
    map is valid, whatever the fields before it hold.
    [Validates.Presence("login", "email")] on a page whose login is empty
    and whose email is filled in: [Validate.All()] leaves login with the
    error list ["can't be blank"] in the response map, reports it to the
    presenter as an error, and returns true, the status of email. *)
Theorem Run_returns_the_status_of_the_last_field :
  (forall (h : Host) (silent : jsval) (s : State),
     fst (Validate.Run h silent s)
     = Ret (if sends h s then false
            else Status_eqb (parseResponse (last_entry (response s))) valid))
  /\ observe ((Validates.Presence signup ["login"; "email"] None ;;
               Validate.All signup VUndef) initial)
     = (Ret true, [],
        [("login", VArr [VStr "can't be blank"]); ("email", VStr "")],
        [EvValidate "login" (VStr ""); EvValidate "email" (VStr "a@b.com");
         EvEffect "login" (VArr [VStr "can't be blank"])
           (Some (error, VStr "can't be blank"));
         EvEffect "email" (VStr "") (Some (valid, VStr ""))]).
Proof.
  split.
  - intros h silent s. apply Run_returns.
  - vm_compute. reflexivity.
Qed.

(** C2 (the code departs from it).  No change of state of a request,
    completion included, writes the response map: the handler only calls
    the presenter.  [Validates.Ajax("email")], then [Validate("email")] and
    the completion of its request with status 200 and the payload
    [{"email": ["is invalid"]}]: the presenter is given the error, and the
    response map holds no entry for email. *)
Theorem completion_leaves_the_response_map_as_it_was :
  (forall (h : Host) (readyState status : Z) (json : JsObj.t jsval)
          (s : State),
     response (snd (Validate.onreadystatechange h readyState status json s))
     = response s)
  /\ observe ((Validates.Ajax signup ["email"] None ;;
               _ <- Validate.Name signup "email" no_name_options ;;
               Validate.onreadystatechange signup 4 200
                 [("email", VArr [VStr "is invalid"])]) initial)
     = (Ret tt, [], [],
        [EvEffect "email" VUndef (Some (loading, VStr ""));
         EvSend "http://example.com/validate?email=a%40b.com";
         EvEffect "email" (VArr [VStr "is invalid"])
           (Some (error, VStr "is invalid"))]).
Proof.
  split.
  - intros h readyState status json s.
    apply (onreadystatechange_quiet h readyState status json s).
  - vm_compute. reflexivity.
Qed.

(** C3 (the code departs from it).  [parseResponse(null)] is "loading": the
    request of C2 completing with the payload [{"email": null}] has the
    presenter given the loading status a second time, never a valid one.
    The rest of the classification is as claimed: a non-empty array is an
    error shown as its messages joined, and any other value that is not
    [null] or [undefined] is valid, shown verbatim when it is truthy. *)
Theorem null_result_is_classified_loading :
  parseResponse VNull = loading
  /\ observe ((Validates.Ajax signup ["email"] None ;;
               _ <- Validate.Name signup "email" no_name_options ;;
               Validate.onreadystatechange signup 4 200 [("email", VNull)])
              initial)
     = (Ret tt, [], [],
        [EvEffect "email" VUndef (Some (loading, VStr ""));
         EvSend "http://example.com/validate?email=a%40b.com";
         EvEffect "email" VNull (Some (loading, VStr ""))])
  /\ (forall (h : Host) (s : State) (name : string) (x : jsval)
             (l : list jsval),
        findOrCreateValidationSpan h name = true ->
        Validate.Effect_span h s name (VArr (x :: l))
        = Some (error, VStr (join ", " (x :: l))))
  /\ (forall (h : Host) (s : State) (name : string) (x : jsval),
        findOrCreateValidationSpan h name = true ->
        eq_undefined x = false ->
        (forall y l, x <> VArr (y :: l)) ->
        parseResponse x = valid
        /\ (truthy x = true ->
            Validate.Effect_span h s name x = Some (valid, x))).
Proof.
  split; [reflexivity|]. split; [vm_compute; reflexivity|]. split.
  - intros h s name x l F. unfold Validate.Effect_span. now rewrite F.
  - intros h s name x F U A.
    assert (P : parseResponse x = valid).
    { unfold parseResponse. rewrite U.
      destruct x as [| | | | |[|y l]|]; try reflexivity.
      now destruct (A y l). }
    split; [exact P|]. intros T.
    unfold Validate.Effect_span. rewrite F, P. cbn zeta.
    unfold js_or. now rewrite T.
Qed.

(** C5 (the code departs from it).  A flush that sends reports each
    property of the queue as loading once (each field once, the properties
    of the queue being distinct), and the request follows; but
    every later change of state of the request that is not a successful
    completion reports whatever the queue holds then as loading again.
    [Validate("email")] flushes a batch holding email; a deferred
    [Validate("email", {defer: true})] follows before the request has moved
    on; when the request reaches readyState 2 its handler reports email as
    loading a second time. *)
Theorem loading_is_reported_twice :
  (forall (h : Host) (silent : jsval) (s : State),
     sends h s = true ->
     Validate.Run h silent s
     = (Ret false,
        with_queue []
          (with_trace (trace s ++ loading_reports h s ++ [request h s]) s)))
  /\ (forall (h : Host) (s : State) (name : string),
        NoDup (JsObj.keys (queue s)) -> In name (JsObj.keys (queue s)) ->
        reports name (loading_reports h s) = [loading])
  /\ (forall (h : Host) (readyState status : Z) (json : JsObj.t jsval)
             (s : State),
        ((readyState =? 4) && (200 <=? status) && (status <? 300))%Z = false ->
        Validate.onreadystatechange h readyState status json s
        = (Ret tt, with_trace (trace s ++ loading_reports h s) s))
  /\ observe ((Validates.Ajax signup ["email"] None ;;
               _ <- Validate.Name signup "email" no_name_options ;;
               _ <- Validate.Name signup "email" deferred ;;
               Validate.onreadystatechange signup 2 200 []) initial)
     = (Ret tt, [("email", VStr "a@b.com")], [],
        [EvEffect "email" VUndef (Some (loading, VStr ""));
         EvSend "http://example.com/validate?email=a%40b.com";
         EvEffect "email" VUndef (Some (loading, VStr ""))])
  /\ reports "email"
       (trace (snd ((Validates.Ajax signup ["email"] None ;;
                     _ <- Validate.Name signup "email" no_name_options ;;
                     _ <- Validate.Name signup "email" deferred ;;
                     Validate.onreadystatechange signup 2 200 []) initial)))
     = [loading; loading].
Proof.
  split; [intros; now apply Run_sends|].
  split; [intros; now apply flush_reports_each_field_once|].
  split; [intros; now apply readystatechange_reports_the_queue|].
  split; vm_compute; reflexivity.
Qed.

(** * Further properties of the code *)

(** ** [Helpers.underscore] *)

Lemma to_lower_word (c : ascii) :
  Dom.is_word (Dom.to_lower c) = id_char (Dom.to_lower c).
Proof. destruct c as [[] [] [] [] [] [] [] []]; reflexivity. Qed.

Lemma id_char_fixed (c : ascii) :
  id_char c = true -> Dom.to_lower c = c /\ Dom.is_word c = true.
Proof.
  destruct c as [[] [] [] [] [] [] [] []]; intros H;
    try discriminate H; split; reflexivity.
Qed.

Lemma squash_lower_every (b : bool) (s : string) :
  every id_char (Dom.squash b (Dom.toLowerCase s)) = true.
Proof.
  revert b. induction s as [|c s IH]; intros b; simpl; auto.
  destruct (Dom.is_word (Dom.to_lower c)) eqn:W.
  - simpl. rewrite <- to_lower_word, W. apply IH.
  - destruct b; simpl; apply IH.
Qed.

Lemma strip_start_every (p : ascii -> bool) (s : string) :
  every p s = true -> every p (Dom.strip_start s) = true.
Proof.
  induction s as [|c s IH]; simpl; auto.
  intros H. apply andb_true_iff in H. destruct H as [H1 H2].
  destruct (c =? "_")%char; auto. simpl. now rewrite H1, H2.
Qed.

Lemma strip_end_every (p : ascii -> bool) (s : string) :
  every p s = true -> every p (Dom.strip_end s) = true.
Proof.
  induction s as [|c s IH]; simpl; auto.
  intros H. apply andb_true_iff in H. destruct H as [H1 H2].
  specialize (IH H2). destruct (Dom.strip_end s) as [|d r].
  - destruct (c =? "_")%char; simpl; auto. now rewrite H1.
  - change (every p (String c (String d r)))
      with (p c && every p (String d r)). now rewrite H1, IH.
Qed.

Lemma strip_start_starts (s : string) :
  starts_with_underscore (Dom.strip_start s) = false.
Proof.
  induction s as [|c s IH]; simpl; auto.
  destruct (c =? "_")%char eqn:E; simpl; auto.
Qed.

Lemma strip_end_starts (s : string) :
  starts_with_underscore s = false ->
  starts_with_underscore (Dom.strip_end s) = false.
Proof.
  destruct s as [|c s]; simpl; auto. intros H.
  destruct (Dom.strip_end s); simpl; rewrite ?H; auto.
Qed.

Lemma strip_end_ends (s : string) :
  ends_with_underscore (Dom.strip_end s) = false.
Proof.
  induction s as [|c s IH]; simpl; auto.
  destruct (Dom.strip_end s) as [|d r].
  - destruct (c =? "_")%char eqn:E; simpl; auto.
  - exact IH.
Qed.

Lemma toLowerCase_fixed (s : string) :
  every id_char s = true -> Dom.toLowerCase s = s.
Proof.
  induction s as [|c s IH]; simpl; auto.
  intros H. apply andb_true_iff in H. destruct H as [H1 H2].
  destruct (id_char_fixed c H1) as [L _]. now rewrite L, IH.
Qed.

Lemma squash_fixed (s : string) :
  every id_char s = true -> Dom.squash false s = s.
Proof.
  induction s as [|c s IH]; simpl; auto.
  intros H. apply andb_true_iff in H. destruct H as [H1 H2].
  destruct (id_char_fixed c H1) as [_ W]. now rewrite W, IH.
Qed.

Lemma strip_start_fixed (s : string) :
  starts_with_underscore s = false -> Dom.strip_start s = s.
Proof. destruct s as [|c s]; simpl; auto. now intros ->. Qed.

Lemma strip_end_fixed (s : string) :
  ends_with_underscore s = false -> Dom.strip_end s = s.
Proof.
  induction s as [|c s IH]; auto.
  destruct s as [|d r].
  - simpl. now intros ->.
  - intros H. change (ends_with_underscore (String d r) = false) in H.
    change (Dom.strip_end (String c (String d r)))
      with (match Dom.strip_end (String d r) with
            | EmptyString => if (c =? "_")%char then EmptyString
                             else String c EmptyString
            | r' => String c r'
            end).
    now rewrite (IH H).
Qed.

(** X1.  [Helpers.underscore] always yields an identifier: only lower-case
    letters, digits and underscores, with no underscore at its start or at
    its end (the empty string when the input has no letter or digit). *)
Theorem underscore_yields_an_identifier (s : string) :
  every id_char (Dom.underscore s) = true
  /\ starts_with_underscore (Dom.underscore s) = false
  /\ ends_with_underscore (Dom.underscore s) = false.
Proof.
  unfold Dom.underscore. repeat split.
  - apply strip_end_every, strip_start_every, squash_lower_every.
  - apply strip_end_starts, strip_start_starts.
  - apply strip_end_ends.
Qed.

(** X2.  [Helpers.underscore] leaves such an identifier as it is, so it is
    idempotent: distinct field names may share a span id (["user[email]"]
    and ["user_email"] do), and underscoring again changes nothing. *)
Theorem underscore_is_idempotent (s : string) :
  Dom.underscore (Dom.underscore s) = Dom.underscore s
  /\ (every id_char s = true -> starts_with_underscore s = false ->
      ends_with_underscore s = false -> Dom.underscore s = s)
  /\ Dom.underscore "user[email]" = Dom.underscore "user_email".
Proof.
  assert (F : forall t, every id_char t = true ->
                        starts_with_underscore t = false ->
                        ends_with_underscore t = false -> Dom.underscore t = t).
  { intros t E S N. unfold Dom.underscore.
    rewrite (toLowerCase_fixed t E), (squash_fixed t E),
      (strip_start_fixed t S). now apply strip_end_fixed. }
  split; [|split; [apply F | reflexivity]].
  apply F.
  - unfold Dom.underscore.
    apply strip_end_every, strip_start_every, squash_lower_every.
  - unfold Dom.underscore. apply strip_end_starts, strip_start_starts.
  - unfold Dom.underscore. apply strip_end_ends.
Qed.

(** ** [Helpers.getValuesByName] *)



(** Unchecked boxes add a value only when the name stands for one element. *)
Lemma unchecked_values (form : Dom.Scope) (n : nat) (els : list Dom.Element) :
  Forall (fun el => Dom.el_checked el = false
                    /\ Dom.checkable (Dom.el_type el) = true) els ->
  n <> 1 ->
  flat_map (Dom.values_of form n) els = [].
Proof.
  intros F N. apply Nat.eqb_neq in N.
  induction F as [|el els [C T] _ IH]; simpl; auto.
  unfold Dom.values_of at 1. rewrite C, T, N. simpl.
  destruct (Dom.in_scope form el); exact IH.
Qed.

Lemma unchecked_group_undefined
    (doc : Dom.Document) (name : string) (form : Dom.Scope) :
  all_unchecked doc name ->
  List.length (Dom.getElementsByName doc name) <> 1 ->
  Dom.getValuesByName doc name form = VUndef.
Proof.
  intros U N. unfold Dom.getValuesByName.
  now rewrite (unchecked_values _ _ _ U N).
Qed.

(** X4.  Check boxes and radio buttons of one name, none of them checked:
    a lone one in scope has the value [""], and a group of two or more has
    no value at all, as a name with no control has none. *)
Theorem unchecked_controls_have_no_value
    (doc : Dom.Document) (name : string) (form : Dom.Scope) :
  all_unchecked doc name ->
  (List.length (Dom.getElementsByName doc name) <> 1 ->
   Dom.getValuesByName doc name form = VUndef)
  /\ (forall el, Dom.getElementsByName doc name = [el] ->
        Dom.getValuesByName doc name form
        = if Dom.in_scope (Dom.resolve doc form) el then VStr "" else VUndef).
Proof.
  intros U. unfold all_unchecked in U. split.
  - intros N. now apply unchecked_group_undefined.
  - intros el E. unfold Dom.getValuesByName. rewrite E in *.
    inversion U as [|? ? [C T] _]; subst. simpl.
    unfold Dom.values_of. rewrite C, T. simpl.
    destruct (Dom.in_scope _ el); reflexivity.
Qed.

Lemma unchecked_controls_have_no_value_witness :
  all_unchecked survey "colour"
  /\ Dom.getValuesByName survey "colour" Dom.scope_none = VUndef
  /\ Dom.getValuesByName survey "terms" Dom.scope_none = VStr "".
Proof.
  assert (U : all_unchecked survey "colour").
  { unfold all_unchecked. simpl. repeat constructor. }
  assert (T : all_unchecked survey "terms").
  { unfold all_unchecked. simpl. repeat constructor. }
  split; [exact U|]. split.
  - apply (proj1 (unchecked_controls_have_no_value survey "colour"
                    Dom.scope_none U)).
    simpl. discriminate.
  - exact (proj2 (unchecked_controls_have_no_value survey "terms"
                    Dom.scope_none T) _ eq_refl).
Defined.

(** X5.  [Validate.Name] on a field with no value (no control of that name,
    or an unchecked group) runs no rule, flushes nothing and returns
    [undefined]; it leaves the queue and the trace as they were, but it has
    already reset the response map unless the call is deferred. *)
Theorem Name_on_a_field_without_value
    (doc : Dom.Document) (location : string) (enc : string -> string)
    (name : string) (options : NameOptions) (s : State) :
  all_unchecked doc (Dom.extractName doc name) ->
  List.length (Dom.getElementsByName doc (Dom.extractName doc name)) <> 1 ->
  Validate.Name (Dom.host doc location enc) name options s
  = (Ret VUndef, reset_unless_deferred options s)
  /\ queue (reset_unless_deferred options s) = queue s
  /\ trace (reset_unless_deferred options s) = trace s
  /\ response (reset_unless_deferred options s)
     = if truthy (defer options) then response s else [].
Proof.
  intros U N. split.
  - unfold Validate.Name. simpl.
    rewrite (unchecked_group_undefined doc _ _ U N).
    unfold reset_unless_deferred, bind.
    destruct (truthy (defer options)); reflexivity.
  - unfold reset_unless_deferred.
    destruct (truthy (defer options)); destruct s; auto.
Qed.

Lemma Name_on_a_field_without_value_witness :
  all_unchecked survey (Dom.extractName survey "colour")
  /\ List.length (Dom.getElementsByName survey (Dom.extractName survey "colour"))
     <> 1
  /\ Validate.Name (Dom.host survey "http://example.com" percent_encode)
       "colour" no_name_options initial
     = (Ret VUndef, reset_unless_deferred no_name_options initial).
Proof.
  assert (U : all_unchecked survey (Dom.extractName survey "colour")).
  { unfold all_unchecked. simpl. repeat constructor. }
  assert (N : List.length
                (Dom.getElementsByName survey (Dom.extractName survey "colour"))
              <> 1) by (simpl; discriminate).
  split; [exact U|]. split; [exact N|].
  exact (proj1 (Name_on_a_field_without_value survey "http://example.com"
                  percent_encode "colour" no_name_options initial U N)).
Defined.

(** ** Frames of the engine *)

Lemma same_setup_refl (s : State) : same_setup s s.
Proof. repeat split. Qed.

Lemma same_setup_trans (a b c : State) :
  same_setup a b -> same_setup b c -> same_setup a c.
Proof.
  unfold same_setup. intros (?&?&?&?&?&?) (?&?&?&?&?&?).
  repeat split; congruence.
Qed.

Lemma same_queue_refl (s : State) : same_queue s s.
Proof. split; [apply same_setup_refl | reflexivity]. Qed.

Lemma same_queue_trans (a b c : State) :
  same_queue a b -> same_queue b c -> same_queue a c.
Proof.
  intros [S1 Q1] [S2 Q2]. split; [eapply same_setup_trans; eauto | congruence].
Qed.

Lemma same_map_refl (s : State) : same_map s s.
Proof. split; [apply same_setup_refl | reflexivity]. Qed.

Lemma same_map_trans (a b c : State) :
  same_map a b -> same_map b c -> same_map a c.
Proof.
  intros [S1 Q1] [S2 Q2]. split; [eapply same_setup_trans; eauto | congruence].
Qed.

Lemma unseen_refl (s : State) : unseen s s.
Proof. reflexivity. Qed.

Lemma unseen_trans (a b c : State) : unseen a b -> unseen b c -> unseen a c.
Proof. unfold unseen. congruence. Qed.

Lemma shown_events_app (a b : list Event) :
  shown_events (a ++ b) = shown_events a ++ shown_events b.
Proof. apply filter_app. Qed.

(** The frame rules of the engine's own functions, for any relation that
    its writes respect: [call_ok] the record of a predicate call, [queue_ok]
    and [response_ok] a write to either map, [show_ok] the record of a
    presenter call or of a request. *)
Section GenericFrames.
Variable h : Host.
Variable R : State -> State -> Prop.
Hypothesis R_refl : forall s, R s s.
Hypothesis R_trans : forall a b c, R a b -> R b c -> R a c.
Hypothesis call_ok : forall e, shown_events [e] = [] -> keeps R (emit e).

Ltac generic leaf :=
  frame_with R_refl R_trans
    ltac:(first [ leaf | apply call_ok; reflexivity ]).

Lemma Local_loop_keeps (name : string) (rules : list Rule) :
  keeps R (Validate.Local_loop h name rules).
Proof.
  induction rules as [|v rules IH]; simpl.
  - apply keeps_ret, R_refl.
  - unfold Validate.call_validate. generic ltac:(exact IH).
Qed.

Lemma Local_keeps (name : string) : keeps R (Validate.Local h name).
Proof.
  unfold Validate.Local. generic ltac:(apply Local_loop_keeps).
Qed.

Lemma guard_keeps (v : Rule) (name : string) (value : jsval) :
  keeps R (Validate.guard h v name value).
Proof.
  unfold Validate.guard, Validate.call_cond.
  generic ltac:(apply Local_keeps).
Qed.

Section Queue.
Hypothesis queue_ok :
  forall f, keeps R (modify (fun s => with_queue (f s) s)).

Lemma pushParameters_loop_keeps (incls : list string) :
  keeps R (Validate.pushParameters_loop h incls).
Proof.
  induction incls as [|incl incls IH]; simpl.
  - apply keeps_ret, R_refl.
  - destruct (Helpers.split_pair incl).
    generic ltac:(first [exact IH | apply queue_ok]).
Qed.

Lemma Queue_remote_keeps (name : string) (value : jsval) :
  keeps R (Validate.Queue h reg_remote name value).
Proof.
  unfold Validate.Queue, Validate.Queue_rule, Validate.call_pushParameters.
  generic ltac:(first [ apply guard_keeps | apply pushParameters_loop_keeps
                      | apply queue_ok ]).
Qed.

End Queue.

Section Response.
Hypothesis response_ok :
  forall f, keeps R (modify (fun s => with_response (f s) s)).

Lemma Queue_local_keeps (name : string) (value : jsval) :
  keeps R (Validate.Queue h reg_local name value).
Proof.
  unfold Validate.Queue, Validate.Queue_rule, Validate.call_validate.
  generic ltac:(first [ apply guard_keeps | apply response_ok ]).
Qed.

End Response.

Section Whole.
Hypothesis queue_ok :
  forall f, keeps R (modify (fun s => with_queue (f s) s)).
Hypothesis response_ok :
  forall f, keeps R (modify (fun s => with_response (f s) s)).
Hypothesis show_ok : forall e, keeps R (emit e).

Lemma Effect_keeps (name : string) (x : jsval) :
  keeps R (Validate.Effect h name x).
Proof. unfold Validate.Effect. generic ltac:(apply show_ok). Qed.

Lemma onreadystatechange_keeps (readyState status : Z) (json : JsObj.t jsval) :
  keeps R (Validate.onreadystatechange h readyState status json).
Proof.
  unfold Validate.onreadystatechange. simpl.
  destruct (_ && _ && _)%bool; generic ltac:(apply Effect_keeps).
Qed.

Lemma Run_keeps (silent : jsval) : keeps R (Validate.Run h silent).
Proof.
  assert (L : forall names x, keeps R (Validate.Run_loop h silent names x)).
  { induction names as [|n names IH]; intros x; simpl.
    - apply keeps_ret, R_refl.
    - generic ltac:(first [apply Effect_keeps | apply IH]). }
  unfold Validate.Run, Validate.Remote.
  generic ltac:(first [ apply onreadystatechange_keeps | apply L
                      | apply show_ok
                      | apply (queue_ok (fun _ => [])) ]).
Qed.

Lemma Name_keeps (name : string) (options : NameOptions) :
  keeps R (Validate.Name h name options).
Proof.
  unfold Validate.Name.
  generic ltac:(first [ apply (Queue_remote_keeps queue_ok)
                      | apply (Queue_local_keeps response_ok)
                      | apply Run_keeps
                      | apply (response_ok (fun _ => [])) ]).
Qed.

Lemma All_keeps (form : jsval) : keeps R (Validate.All h form).
Proof.
  unfold Validate.All.
  generic ltac:(first [ apply Name_keeps | apply Run_keeps
                      | apply (response_ok (fun _ => [])) ]).
Qed.

End Whole.
End GenericFrames.

Lemma emit_same_setup (e : Event) : keeps same_setup (emit e).
Proof. intros s. destruct s; repeat split. Qed.

Lemma set_queue_same_setup (f : State -> JsObj.t jsval) :
  keeps same_setup (modify (fun s => with_queue (f s) s)).
Proof. intros s. destruct s; repeat split. Qed.

Lemma set_response_same_setup (f : State -> JsObj.t jsval) :
  keeps same_setup (modify (fun s => with_response (f s) s)).
Proof. intros s. destruct s; repeat split. Qed.

Lemma emit_same_queue (e : Event) : keeps same_queue (emit e).
Proof. intros s. destruct s; repeat split. Qed.

Lemma set_response_same_queue (f : State -> JsObj.t jsval) :
  keeps same_queue (modify (fun s => with_response (f s) s)).
Proof. intros s. destruct s; repeat split. Qed.

Lemma emit_same_map (e : Event) : keeps same_map (emit e).
Proof. intros s. destruct s; repeat split. Qed.

Lemma set_queue_same_map (f : State -> JsObj.t jsval) :
  keeps same_map (modify (fun s => with_queue (f s) s)).
Proof. intros s. destruct s; repeat split. Qed.

Lemma emit_unseen (e : Event) :
  shown_events [e] = [] -> keeps unseen (emit e).
Proof.
  intros E s. unfold unseen. destruct s; simpl.
  rewrite shown_events_app, E. apply app_nil_r.
Qed.

Lemma set_queue_unseen (f : State -> JsObj.t jsval) :
  keeps unseen (modify (fun s => with_queue (f s) s)).
Proof. intros s. destruct s; reflexivity. Qed.

Lemma set_response_unseen (f : State -> JsObj.t jsval) :
  keeps unseen (modify (fun s => with_response (f s) s)).
Proof. intros s. destruct s; reflexivity. Qed.

Ltac setup_premises :=
  first [ apply same_setup_refl | exact same_setup_trans
        | intros; apply emit_same_setup
        | apply set_queue_same_setup | apply set_response_same_setup ].

(** X6.  Validating never changes what was set up: the two registries, the
    valid and loading messages and the remote path are the same after
    [Validate.Name], [Validate.All], [Validate.Local], [Validate.Run] and
    any change of state of a request, whether the call returns or throws. *)
Theorem validation_keeps_the_setup (h : Host) (s : State) :
  (forall name options, same_setup s (snd (Validate.Name h name options s)))
  /\ (forall form, same_setup s (snd (Validate.All h form s)))
  /\ (forall name, same_setup s (snd (Validate.Local h name s)))
  /\ (forall silent, same_setup s (snd (Validate.Run h silent s)))
  /\ (forall readyState status json,
        same_setup s
          (snd (Validate.onreadystatechange h readyState status json s))).
Proof.
  split; [|split; [|split; [|split]]]; intros.
  - apply (Name_keeps h same_setup); setup_premises.
  - apply (All_keeps h same_setup); setup_premises.
  - apply (Local_keeps h same_setup); setup_premises.
  - apply (Run_keeps h same_setup); setup_premises.
  - apply (onreadystatechange_keeps h same_setup); setup_premises.
Qed.

(** X7.  The two dispatches are disjoint in what they write, and neither
    shows or sends anything: the local dispatch leaves the queue as it was,
    the remote dispatch leaves the response map as it was, and both leave
    the setup; presenter calls and requests come only from the flush. *)
Theorem dispatch_writes_one_map (h : Host) (name : string) (value : jsval)
    (s : State) :
  same_queue s (snd (Validate.Queue h reg_local name value s))
  /\ unseen s (snd (Validate.Queue h reg_local name value s))
  /\ same_map s (snd (Validate.Queue h reg_remote name value s))
  /\ unseen s (snd (Validate.Queue h reg_remote name value s)).
Proof.
  split; [|split; [|split]].
  - apply (Queue_local_keeps h same_queue);
      first [ apply same_queue_refl | exact same_queue_trans
            | intros; apply emit_same_queue | apply set_response_same_queue ].
  - apply (Queue_local_keeps h unseen);
      first [ apply unseen_refl | exact unseen_trans
            | exact emit_unseen | apply set_response_unseen ].
  - apply (Queue_remote_keeps h same_map);
      first [ apply same_map_refl | exact same_map_trans
            | intros; apply emit_same_map | apply set_queue_same_map ].
  - apply (Queue_remote_keeps h unseen);
      first [ apply unseen_refl | exact unseen_trans
            | exact emit_unseen | apply set_queue_unseen ].
Qed.

(** ** The whole effect of the flush *)

Lemma Run_loop_exact (h : Host) (silent : jsval) (names : list string)
    (x : jsval) (s : State) :
  Validate.Run_loop h silent names x s
  = (Ret (last (map (JsObj.read (response s)) names) x),
     with_trace
       (trace s ++
        (if truthy silent then []
         else map (fun name =>
                     EvEffect name (JsObj.read (response s) name)
                       (Validate.Effect_span h s name
                          (JsObj.read (response s) name))) names)) s).
Proof.
  revert x s. induction names as [|n names IH]; intros x s.
  - simpl. destruct (truthy silent); now rewrite with_trace_nil.
  - cbn [Validate.Run_loop map]. rewrite last_cons_default.
    unfold bind at 1. unfold gets at 1. unfold bind at 1.
    destruct (truthy silent) eqn:S.
    + unfold ret at 1. rewrite IH. rewrite ?S. reflexivity.
    + unfold Validate.Effect at 1. run_monad. rewrite IH. rewrite ?S.
      simpl. rewrite with_trace_twice, <- app_assoc. simpl.
      destruct s; simpl. reflexivity.
Qed.

Lemma Run_idle (h : Host) (silent : jsval) (s : State) :
  sends h s = false ->
  Validate.Run h silent s
  = (Ret (Status_eqb (parseResponse (last_entry (response s))) valid),
     with_queue [] (with_trace (trace s ++ final_reports h silent s) s)).
Proof.
  intros S. unfold Validate.Run. unfold bind at 1.
  rewrite (Remote_idle h s S).
  unfold bind at 1. unfold bind at 1. unfold gets at 1.
  rewrite Run_loop_exact. reflexivity.
Qed.

(** X8.  [Validate.Run] never throws, and this is all it does: it empties
    the queue and adds to the trace either the loading reports and the
    request (when the queue yields a parameter) or the final reports of the
    response map; the response map and the setup are as they were.
    [options.silent] silences the final reports only: a flush that sends
    reports its fields as loading all the same. *)
Theorem Run_empties_the_queue_and_reports (h : Host) (silent : jsval)
    (s : State) :
  exists b,
    Validate.Run h silent s
    = (Ret b,
       with_queue []
         (with_trace
            (trace s ++
             (if sends h s then loading_reports h s ++ [request h s]
              else final_reports h silent s)) s))
    /\ (truthy silent = true -> sends h s = false ->
        Validate.Run h silent s = (Ret b, with_queue [] s)).
Proof.
  destruct (sends h s) eqn:S.
  - exists false. split; [now apply Run_sends | discriminate].
  - eexists. split; [now apply Run_idle|].
    intros T _. rewrite (Run_idle h silent s S).
    unfold final_reports. rewrite T. now rewrite with_trace_nil.
Qed.

(** X9.  [Validate.All] on a page with no rule registered and nothing
    queued returns false: it resets the response map, shows nothing, sends
    nothing, and reads the status of no field as "loading". *)
Theorem All_without_rules_returns_false (h : Host) (form : jsval) (s : State) :
  local s = [] -> remote s = [] -> sends h s = false ->
  Validate.All h form s = (Ret false, with_queue [] (with_response [] s)).
Proof.
  intros L R S. unfold Validate.All.
  unfold bind at 1. unfold modify at 1.
  unfold bind at 1. unfold gets at 1.
  assert (R' : remote (with_response [] s) = []) by (destruct s; exact R).
  assert (L' : local (with_response [] s) = []) by (destruct s; exact L).
  rewrite R'. simpl. unfold bind at 1. unfold ret at 1.
  unfold bind at 1. unfold gets at 1. rewrite L'. simpl.
  unfold bind at 1. unfold ret at 1.
  rewrite Run_idle by (destruct s; exact S).
  destruct s; unfold final_reports; simpl. now rewrite app_nil_r.
Qed.

Lemma All_without_rules_returns_false_witness :
  local initial = [] /\ remote initial = []
  /\ sends signup initial = false
  /\ Validate.All signup VUndef initial
     = (Ret false, with_queue [] (with_response [] initial)).
Proof.
  split; [reflexivity|]. split; [reflexivity|]. split; [reflexivity|].
  exact (All_without_rules_returns_false signup VUndef initial
           eq_refl eq_refl eq_refl).
Defined.

(** ** A field with local rules only *)
Section LocalOnly.
Variable h : Host.
Variables (name : string) (value : jsval).

Lemma same_setup_local (s s' : State) : same_setup s s' -> local s' = local s.
Proof. now intros [L _]. Qed.

Lemma verdict_same_local (s s' : State) (v : Rule) :
  local s' = local s ->
  verdict h s' name value v = verdict h s name value v.
Proof.
  intros L. unfold verdict.
  destruct (guard_at h name value v s s' L) as (t & G). now rewrite G.
Qed.

Lemma Queue_rule_fresh (s0 s : State) (v : Rule) (acc m : list jsval) :
  verdict h s0 name value v = Ret m ->
  same_setup s0 s ->
  fresh_errors name acc s ->
  exists s', Validate.Queue_rule h reg_local name value v s = (Ret tt, s')
             /\ same_setup s0 s'
             /\ fresh_errors name (acc ++ m) s'.
Proof.
  intros V HS HE. unfold verdict in V.
  destruct (guard_at h name value v s0 s (same_setup_local _ _ HS)) as (t & G).
  assert (W : forall t', same_setup s0 (with_trace t' s))
    by (intros t'; destruct s; exact HS).
  assert (E : forall t', fresh_errors name acc (with_trace t' s))
    by (intros t'; destruct s; exact HE).
  unfold Validate.Queue_rule, bind. rewrite G.
  destruct (fst (Validate.guard h v name value s0)) as [[g|]|];
    try discriminate.
  - inversion V; subst. eexists. split; [reflexivity|].
    split; [apply W|]. rewrite app_nil_r. apply E.
  - unfold Validate.call_validate.
    destruct (validate v) as [f|]; try discriminate.
    run_monad. destruct (f value) as [e|]; try discriminate.
    inversion V; subst. destruct (truthy e) eqn:T.
    + unfold js_or. simpl.
      destruct HE as [[F A]|A].
      * subst acc. destruct s; simpl in *. subst response0. simpl.
        eexists. split; [reflexivity|]. split; [exact HS|].
        right. reflexivity.
      * destruct s; simpl in *. subst response0. unfold JsObj.read. simpl.
        rewrite String.eqb_refl. simpl.
        eexists. split; [reflexivity|]. split; [exact HS|].
        right. simpl. rewrite ?String.eqb_refl. reflexivity.
    + eexists. split; [reflexivity|]. split; [apply W|].
      rewrite app_nil_r. apply E.
Qed.

Lemma Queue_loop_fresh (s0 : State) (rules : list Rule)
    (ms : list (list jsval)) :
  Forall2 (fun v m => verdict h s0 name value v = Ret m) rules ms ->
  forall (s : State) (acc : list jsval),
    same_setup s0 s ->
    fresh_errors name acc s ->
    exists s', for_each rules (Validate.Queue_rule h reg_local name value) s
               = (Ret tt, s')
               /\ same_setup s0 s'
               /\ fresh_errors name (acc ++ List.concat ms) s'.
Proof.
  induction 1 as [|v m rules ms V _ IH]; intros s acc HS HE; simpl.
  - exists s. rewrite app_nil_r. auto.
  - destruct (Queue_rule_fresh s0 s v acc m V HS HE) as (s1 & E & HS1 & HE1).
    destruct (IH s1 (acc ++ m) HS1 HE1) as (s2 & E2 & HS2 & HE2).
    exists s2. unfold bind. rewrite E, E2. rewrite <- app_assoc in HE2. auto.
Qed.

(** The local dispatch of a field into an empty response map. *)
Lemma Queue_local_fresh (s : State) (rules : list Rule)
    (ms : list (list jsval)) :
  JsObj.get (local s) name = Some rules ->
  Forall2 (fun v m => verdict h s name value v = Ret m) rules ms ->
  response s = [] ->
  exists r s',
    Validate.Queue h reg_local name value s = (Ret r, s')
    /\ response s' = [(name, r)]
    /\ same_setup s s'
    /\ entry_of (List.concat ms) s name r.
Proof.
  intros G V E0.
  destruct (Queue_loop_fresh s rules ms V s [] (same_setup_refl s)
              (or_introl (conj E0 eq_refl))) as (s1 & E & HS & HE).
  simpl in HE.
  unfold Validate.Queue. unfold bind at 1. unfold gets at 1. simpl.
  rewrite G. unfold bind at 1. rewrite E.
  destruct HE as [[R A]|R].
  - run_monad. unfold JsObj.read at 1. rewrite R. simpl.
    rewrite read_set_same. rewrite R.
    eexists _, _. split; [reflexivity|]. split; [|split].
    + destruct s1; reflexivity.
    + destruct s1; exact HS.
    + right. split; [exact A|]. right.
      destruct HS as (_ & _ & M & MS & _). rewrite M, MS. reflexivity.
  - run_monad. unfold JsObj.read at 1. rewrite R. simpl.
    rewrite String.eqb_refl. simpl.
    unfold JsObj.read. rewrite R. simpl. rewrite String.eqb_refl.
    eexists _, _. split; [reflexivity|]. split; [exact R|].
    split; [exact HS|].
    destruct (List.concat ms) as [|m0 l] eqn:C.
    + right. split; [reflexivity|]. now left.
    + left. split; [discriminate | reflexivity].
Qed.

End LocalOnly.

Lemma Effect_span_same_setup (h : Host) (s s' : State) (name : string)
    (x : jsval) :
  same_setup s s' ->
  Validate.Effect_span h s' name x = Validate.Effect_span h s name x.
Proof.
  intros (_ & _ & M & MS & L & _). unfold Validate.Effect_span.
  now rewrite M, MS, L.
Qed.

Lemma entry_of_valid (ms : list jsval) (s : State) (name : string)
    (r : jsval) :
  entry_of ms s name r ->
  parseResponse (js_or (JsObj.read (validMessages s) name) (validMessage s))
  = valid ->
  Status_eqb (parseResponse r) valid
  = match ms with [] => true | _ :: _ => false end.
Proof.
  intros [[N R]|[N [R|R]]] U; subst.
  - destruct ms; [congruence | reflexivity].
  - reflexivity.
  - now rewrite U.
Qed.

(** [Validate.Name] on a field that has local rules only. *)
Lemma Name_local_only (h : Host) (name : string)
    (options : NameOptions) (s : State) (rules : list Rule)
    (ms : list (list jsval)) :
  let name' := extractName h name in
  let value := getValuesByName h name' (scope options) in
  eq_undefined value = false ->
  truthy (defer options) = false ->
  JsObj.get (remote s) name' = None ->
  JsObj.get (local s) name' = Some rules ->
  Forall2 (fun v m => verdict h s name' value v = Ret m) rules ms ->
  sends h s = false ->
  exists r s',
    Validate.Name h name options s
      = (Ret (VBool (Status_eqb (parseResponse r) valid)), s')
    /\ entry_of (List.concat ms) s name' r
    /\ (parseResponse (js_or (JsObj.read (validMessages s) name')
                              (validMessage s)) = valid ->
        Status_eqb (parseResponse r) valid
        = match List.concat ms with [] => true | _ :: _ => false end)
    /\ response s' = [(name', r)]
    /\ queue s' = []
    /\ same_setup s s'
    /\ shown_events (trace s')
       = shown_events (trace s)
         ++ (if truthy (silent options) then []
             else [EvEffect name' r (Validate.Effect_span h s name' r)]).
Proof.
  intros name' value U D HR HL V S.
  rewrite Name_unfold by exact U. fold name'. fold value.
  unfold reset_unless_deferred. rewrite D.
  set (s0 := with_response [] s).
  assert (HS0 : same_setup s s0) by (destruct s; repeat split).
  assert (Q0 : queue s0 = queue s) by (destruct s; reflexivity).
  assert (T0 : trace s0 = trace s) by (destruct s; reflexivity).
  assert (R0 : response s0 = []) by (destruct s; reflexivity).
  assert (HL0 : JsObj.get (local s0) name' = Some rules)
    by (rewrite (same_setup_local _ _ HS0); exact HL).
  assert (V0 : Forall2 (fun v m => verdict h s0 name' value v = Ret m)
                 rules ms).
  { eapply Forall2_impl; [|exact V]. intros v m E. simpl in E.
    rewrite (verdict_same_local h name' value s s0 v
               (same_setup_local _ _ HS0)). exact E. }
  destruct (Queue_local_fresh h name' value s0 rules ms HL0 V0 R0)
    as (r & s1 & E & R1 & HS1 & HE).
  assert (HE' : entry_of (List.concat ms) s name' r).
  { destruct HS0 as (_ & _ & M & MS & _). unfold entry_of in *.
    rewrite M, MS in HE. exact HE. }
  assert (Q1 : same_queue s0 s1).
  { pose proof (Queue_local_keeps h same_queue same_queue_refl
                  same_queue_trans) as F.
    specialize (fun a b => F a b name' value s0).
    rewrite E in F. apply F.
    - intros; apply emit_same_queue.
    - apply set_response_same_queue. }
  assert (N1 : unseen s0 s1).
  { pose proof (Queue_local_keeps h unseen unseen_refl unseen_trans) as F.
    specialize (fun a b => F a b name' value s0).
    rewrite E in F. apply F.
    - exact emit_unseen.
    - apply set_response_unseen. }
  assert (S1 : sends h s1 = false).
  { unfold sends in *. destruct Q1 as [_ Q1]. now rewrite Q1, Q0. }
  assert (Rem : (if truthy (only_local options) then ret VUndef
                 else Validate.Queue h reg_remote name' value) s0
                = (Ret (if truthy (only_local options) then VUndef else VNull),
                   s0)).
  { destruct (truthy (only_local options)); [reflexivity|].
    unfold Validate.Queue, bind, gets. simpl.
    destruct HS0 as (_ & Rm & _). rewrite ?Rm. rewrite HR. reflexivity. }
  unfold bind at 1. rewrite Rem.
  assert (F : truthy (if truthy (only_local options) then VUndef else VNull)
              = false) by (destruct (truthy (only_local options)); reflexivity).
  rewrite F. unfold bind at 1. unfold bind at 1. rewrite E.
  unfold ret at 1. unfold Name_return. rewrite D.
  change (negb false) with true. cbv iota.
  unfold bind at 1. rewrite (Run_idle h (silent options) s1 S1).
  assert (L : last_entry (response s1) = r).
  { unfold last_entry. rewrite R1. simpl. unfold JsObj.read. simpl.
    now rewrite String.eqb_refl. }
  rewrite L. exists r. eexists. split; [reflexivity|].
  split; [exact HE'|]. split; [apply (entry_of_valid _ _ _ _ HE')|].
  split; [destruct s1; exact R1|]. split; [destruct s1; reflexivity|].
  split.
  - apply (same_setup_trans _ _ _ HS0).
    apply (same_setup_trans _ _ _ HS1). destruct s1; repeat split.
  - assert (T : forall t, trace (with_queue [] (with_trace t s1)) = t)
      by (intros t; destruct s1; reflexivity).
    rewrite T, shown_events_app. unfold unseen in N1. rewrite N1, T0.
    f_equal. unfold final_reports.
    destruct (truthy (silent options)); [reflexivity|].
    rewrite R1. simpl. unfold JsObj.read. simpl. rewrite String.eqb_refl.
    rewrite (Effect_span_same_setup h s s1 name' r
               (same_setup_trans _ _ _ HS0 HS1)).
    reflexivity.
Qed.

(** X10.  A field that has local rules only is validated at once:
    [Validate.Name], not deferred, on a field with a value and no remote
    rule, while nothing waits in the queue, sends no request and returns the
    field's own verdict.  The response map then holds the field's entry and
    nothing else, the presenter has been called once with that entry (not at
    all when [silent] is set), and the queue is empty.  The entry is the list
    of the messages of the rules, in registration order, and when there is
    none the valid message (or an empty array a predicate answered with);
    so, as long as the field's valid message is one that [parseResponse]
    classifies as valid (a string is), the call returns [true] exactly when
    no rule gave a message. *)
Theorem Name_of_a_local_field_is_synchronous (h : Host) (name : string)
    (options : NameOptions) (s : State) (rules : list Rule)
    (ms : list (list jsval)) :
  let name' := extractName h name in
  let value := getValuesByName h name' (scope options) in
  eq_undefined value = false ->
  truthy (defer options) = false ->
  JsObj.get (remote s) name' = None ->
  JsObj.get (local s) name' = Some rules ->
  Forall2 (fun v m => verdict h s name' value v = Ret m) rules ms ->
  sends h s = false ->
  exists r s',
    Validate.Name h name options s
      = (Ret (VBool (Status_eqb (parseResponse r) valid)), s')
    /\ entry_of (List.concat ms) s name' r
    /\ (parseResponse (js_or (JsObj.read (validMessages s) name')
                              (validMessage s)) = valid ->
        Status_eqb (parseResponse r) valid
        = match List.concat ms with [] => true | _ :: _ => false end)
    /\ response s' = [(name', r)]
    /\ queue s' = []
    /\ same_setup s s'
    /\ shown_events (trace s')
       = shown_events (trace s)
         ++ (if truthy (silent options) then []
             else [EvEffect name' r (Validate.Effect_span h s name' r)]).
Proof. exact (Name_local_only h name options s rules ms). Qed.

Lemma Name_of_a_local_field_is_synchronous_witness :
  eq_undefined (VStr "  ") = false
  /\ truthy (defer no_name_options) = false
  /\ JsObj.get (remote (presence_then_format blank_email)) "email" = None
  /\ JsObj.get (local (presence_then_format blank_email)) "email"
     = Some [presence_rule; format_rule]
  /\ Forall2 (fun v m =>
                verdict blank_email (presence_then_format blank_email) "email"
                  (VStr "  ") v = Ret m)
       [presence_rule; format_rule]
       [[VStr "can't be blank"]; [VStr "is invalid"]]
  /\ sends blank_email (presence_then_format blank_email) = false
  /\ exists r s',
       Validate.Name blank_email "email" no_name_options
         (presence_then_format blank_email)
       = (Ret (VBool (Status_eqb (parseResponse r) valid)), s')
       /\ entry_of [VStr "can't be blank"; VStr "is invalid"]
            (presence_then_format blank_email) "email" r
       /\ (parseResponse (VStr "") = valid ->
           Status_eqb (parseResponse r) valid = false)
       /\ response s' = [("email", r)]
       /\ queue s' = []
       /\ same_setup (presence_then_format blank_email) s'
       /\ shown_events (trace s')
          = [EvEffect "email" r
               (Validate.Effect_span blank_email
                  (presence_then_format blank_email) "email" r)].
Proof.
  assert (V : Forall2 (fun v m =>
                verdict blank_email (presence_then_format blank_email) "email"
                  (VStr "  ") v = Ret m)
                [presence_rule; format_rule]
                [[VStr "can't be blank"]; [VStr "is invalid"]]).
  { repeat constructor. }
  split; [reflexivity|]. split; [reflexivity|]. split; [reflexivity|].
  split; [reflexivity|]. split; [exact V|]. split; [reflexivity|].
  exact (Name_of_a_local_field_is_synchronous blank_email "email"
           no_name_options (presence_then_format blank_email)
           [presence_rule; format_rule]
           [[VStr "can't be blank"]; [VStr "is invalid"]]
           eq_refl eq_refl eq_refl eq_refl V eq_refl).
Defined.

(** ** The silent local check *)

Lemma Local_loop_exact (h : Host) (name : string) (rules : list Rule)
    (es : list jsval) :
  Forall2 (fun v e => answer v (getValuesByName h name VUndef) = Ret e)
    rules es ->
  forall s,
    Validate.Local_loop h name rules s
    = (Ret (forallb (fun e => negb (truthy e)) es),
       with_trace
         (trace s ++ repeat (EvValidate name (getValuesByName h name VUndef))
                       (asked es)) s).
Proof.
  induction 1 as [|v e rules es A _ IH]; intros s; simpl.
  - unfold ret. now rewrite app_nil_r, with_trace_trace.
  - unfold answer in A. unfold Validate.call_validate.
    destruct (validate v) as [f|]; try discriminate.
    run_monad. rewrite A. destruct (truthy e); simpl.
    + reflexivity.
    + rewrite IH. simpl. rewrite with_trace_twice, <- app_assoc. reflexivity.
Qed.

(** X11.  [Validate.Local] asks the predicates of the field's local rules
    in registration order, on the field's current value, whatever the rules'
    guards say ([allowBlank], [allowNull], [if] and [unless] are not looked
    at), and stops at the first that answers with a message.  It returns
    [true] exactly when none of them does, and changes nothing: no entry of
    the response map or the queue, and no call of the presenter. *)
Theorem Local_asks_every_rule_unguarded (h : Host) (name : string)
    (s : State) (rules : list Rule) (es : list jsval) :
  JsObj.get (local s) name = Some rules ->
  Forall2 (fun v e => answer v (getValuesByName h name VUndef) = Ret e)
    rules es ->
  Validate.Local h name s
  = (Ret (forallb (fun e => negb (truthy e)) es),
     with_trace
       (trace s ++ repeat (EvValidate name (getValuesByName h name VUndef))
                     (asked es)) s)
  /\ (asked es <= List.length rules)%nat.
Proof.
  intros G A. split.
  - unfold Validate.Local. unfold bind, gets. simpl. rewrite G.
    now apply Local_loop_exact.
  - clear G. induction A as [|v e rules es _ _ IH]; simpl; [lia|].
    destruct (truthy e); lia.
Qed.

Lemma Local_asks_every_rule_unguarded_witness :
  JsObj.get (local (length_on_email blank_email)) "email" = Some [length_rule]
  /\ Forall2 (fun v e => answer v (VStr "  ") = Ret e)
       [length_rule] [VStr "is too short (minimum is 6 characters)"]
  /\ blank_case (VStr "  ") length_rule = true
  /\ Validate.Local blank_email "email" (length_on_email blank_email)
     = (Ret false,
        with_trace [EvValidate "email" (VStr "  ")]
          (length_on_email blank_email)).
Proof.
  assert (A : Forall2 (fun v e => answer v (VStr "  ") = Ret e)
                [length_rule] [VStr "is too short (minimum is 6 characters)"]).
  { repeat constructor. }
  split; [reflexivity|]. split; [exact A|]. split; [reflexivity|].
  exact (proj1 (Local_asks_every_rule_unguarded blank_email "email"
                  (length_on_email blank_email) [length_rule]
                  [VStr "is too short (minimum is 6 characters)"]
                  eq_refl A)).
Defined.

(** ** Registration *)

Lemma get_set_other {V} (o : JsObj.t V) (k k' : string) (v : V) :
  (k' =? k) = false -> JsObj.get (JsObj.set o k v) k' = JsObj.get o k'.
Proof.
  intros N. induction o as [|[k0 v0] o IH]; simpl.
  - now rewrite N.
  - destruct (k =? k0) eqn:E; simpl.
    + apply String.eqb_eq in E. subst k0. now rewrite N.
    + destruct (k' =? k0); auto.
Qed.

Lemma with_registry_same (type : registry) (s : State) :
  with_registry type (registry_of type s) s = s.
Proof. destruct type, s; reflexivity. Qed.

Lemma with_registry_twice (type : registry) (r r' : JsObj.t (list Rule))
    (s : State) :
  with_registry type r' (with_registry type r s) = with_registry type r' s.
Proof. destruct type, s; reflexivity. Qed.

Lemma registry_of_with_registry (type : registry) (r : JsObj.t (list Rule))
    (s : State) :
  registry_of type (with_registry type r s) = r.
Proof. destruct type, s; reflexivity. Qed.

Lemma register_exact (h : Host) (type : registry) (this : Rule)
    (names : list string) :
  forall s, exists reg',
    register h type names this s = (Ret tt, with_registry type reg' s)
    /\ forall n,
         rules_of reg' n
         = rules_of (registry_of type s) n
           ++ repeat this
                (count_occ string_dec (map (extractName h) (named names)) n).
Proof.
  induction names as [|name rest IH]; intros s; simpl.
  - exists (registry_of type s). rewrite with_registry_same. split; auto.
    intros n. now rewrite app_nil_r.
  - destruct (name =? "") eqn:N.
    + exists (registry_of type s). rewrite with_registry_same. split; auto.
      intros n. now rewrite app_nil_r.
    + unfold bind, modify. simpl.
      set (reg0 := registry_of type s).
      set (n' := extractName h name).
      set (s1 := with_registry type
                   (JsObj.set reg0 n' (rules_of reg0 n' ++ [this])) s).
      destruct (IH s1) as (reg' & E & F).
      exists reg'. rewrite E. subst s1. rewrite with_registry_twice.
      split; [reflexivity|]. intros n. rewrite F.
      rewrite registry_of_with_registry. simpl.
      destruct (string_dec n' n) as [Q|Q].
      * subst n. unfold rules_of at 1. rewrite get_set_same.
        rewrite <- app_assoc. reflexivity.
      * unfold rules_of at 1. rewrite get_set_other.
        -- reflexivity.
        -- apply String.eqb_neq. congruence.
Qed.

(** X12.  A registration ([new GoodForm.Validation(args, ...)], which every
    kind of [GoodForm.Validates] calls) only appends: under each name of its
    arguments, up to the first empty one, it pushes one and the same rule at
    the end of the field's list in the registry of its type, once for each
    time the field is named; the lists of the other fields, the other
    registry and the rest of the state are as before.  The rule carries the
    options as given, with the kind's default message when they hold none.
    Without a name and without options the constructor throws and registers
    nothing. *)
Theorem registration_appends_one_shared_rule (h : Host)
    (names : list string) (options : option Options)
    (defaultMessage : option string) (remote : bool)
    (finish : Options -> Rule) (s : State) :
  (names = [] /\ options = None ->
   Validation h names options defaultMessage remote finish s = (Throw, s))
  /\ (names <> [] \/ options <> None ->
      exists reg',
        Validation h names options defaultMessage remote finish s
        = (Ret tt,
           with_registry (if remote then reg_remote else reg_local) reg' s)
        /\ (forall n,
              rules_of reg' n
              = rules_of
                  (registry_of (if remote then reg_remote else reg_local) s) n
                ++ repeat (finish (configured options defaultMessage))
                     (count_occ string_dec
                        (map (extractName h) (named names)) n))
        /\ (forall name, In name (named names) ->
              In (finish (configured options defaultMessage))
                 (rules_of reg' (extractName h name)))).
Proof.
  split.
  - intros [-> ->]. reflexivity.
  - intros N.
    destruct (register_exact h (if remote then reg_remote else reg_local)
                (finish (configured options defaultMessage)) names s)
      as (reg' & E & F).
    exists reg'. split; [|split; [exact F|]].
    + rewrite <- E. unfold Validation, configured.
      destruct names, options; try reflexivity.
      destruct N as [N|N]; congruence.
    + intros name I. rewrite F. apply in_or_app. right.
      assert (C : (count_occ string_dec (map (extractName h) (named names))
                     (extractName h name) > 0)%nat).
      { apply count_occ_In. now apply in_map. }
      destruct (count_occ string_dec (map (extractName h) (named names))
                  (extractName h name)); [lia | now left].
Qed.

(** ** A field with a remote rule *)

Lemma set_set_same {V} (o : JsObj.t V) (k : string) (v : V) :
  JsObj.set (JsObj.set o k v) k v = JsObj.set o k v.
Proof.
  induction o as [|[k' v'] o IH]; simpl.
  - now rewrite String.eqb_refl.
  - destruct (k =? k') eqn:E; simpl; rewrite E; [reflexivity | now rewrite IH].
Qed.

Lemma Queue_rule_enqueues (h : Host) (name : string) (value : jsval)
    (v : Rule) (s : State) :
  enqueues_only value v ->
  Validate.Queue_rule h reg_remote name value v s
  = (Ret tt, with_queue (JsObj.set (queue s) name value) s).
Proof.
  intros (B & N & I & U & P & C).
  unfold Validate.Queue_rule, Validate.guard, Validate.call_pushParameters.
  rewrite !strict_true_and. fold (blank_case value v) (null_case value v).
  rewrite B, N, I, U, P, C. reflexivity.
Qed.

Lemma Queue_loop_enqueues (h : Host) (name : string) (value : jsval)
    (rules : list Rule) :
  Forall (enqueues_only value) rules ->
  forall s,
    for_each rules (Validate.Queue_rule h reg_remote name value) s
    = (Ret tt,
       match rules with
       | [] => s
       | _ :: _ => with_queue (JsObj.set (queue s) name value) s
       end).
Proof.
  induction 1 as [|v rules P _ IH]; intros s; simpl; [reflexivity|].
  unfold bind. rewrite (Queue_rule_enqueues h name value v s P), IH.
  destruct rules; [reflexivity|].
  destruct s; simpl. now rewrite set_set_same.
Qed.

(** X13.  A field with a remote rule is not decided by the call that
    validates it: [Validate.Name], not deferred and not [local], on a field
    whose value is a non-empty string and whose remote rules all enqueue it,
    while nothing else waits in the queue, returns [false] whatever the
    field's local rules would say.  It calls no local predicate, shows
    the field as loading once, sends the one request
    [location + remotePath + "?" + name + "=" + encodeURIComponent(value)],
    and leaves the queue and the response map empty. *)
Theorem Name_of_a_remote_field_sends_one_request (h : Host) (name : string)
    (options : NameOptions) (s : State) (rules : list Rule) (str : string) :
  let name' := extractName h name in
  getValuesByName h name' (scope options) = VStr str ->
  str <> "" ->
  truthy (defer options) = false ->
  truthy (only_local options) = false ->
  JsObj.get (remote s) name' = Some rules ->
  rules <> [] ->
  Forall (enqueues_only (VStr str)) rules ->
  queue s = [] ->
  Validate.Name h name options s
  = (Ret (VBool false),
     with_queue []
       (with_trace
          (trace s
           ++ [EvEffect name' VUndef (Validate.Effect_span h s name' VUndef);
               EvSend (location h ++ remotePath s ++ "?"
                       ++ name' ++ "=" ++ encodeURIComponent h str)%string])
          (with_response [] s))).
Proof.
  intros name' V NE D OL HR NR P Q.
  assert (T : truthy (VStr str) = true) by (destruct str; [congruence|reflexivity]).
  rewrite Name_unfold by (fold name'; rewrite V; reflexivity).
  fold name'. rewrite V. unfold reset_unless_deferred. rewrite D, OL.
  set (s0 := with_response [] s).
  set (s1 := with_queue [(name', VStr str)] s0).
  assert (E : Validate.Queue h reg_remote name' (VStr str) s0
              = (Ret (VStr str), s1)).
  { unfold Validate.Queue. unfold bind at 1. unfold gets at 1.
    assert (R0 : registry_of reg_remote s0 = remote s)
      by (destruct s; reflexivity).
    rewrite R0, HR. unfold bind at 1.
    rewrite (Queue_loop_enqueues h name' (VStr str) rules P s0).
    destruct rules as [|v rules]; [congruence|].
    assert (Q0 : queue s0 = []) by (destruct s; exact Q).
    rewrite Q0. simpl JsObj.set. fold s1.
    unfold gets. subst s1. destruct s0; simpl. unfold JsObj.read. simpl.
    now rewrite String.eqb_refl. }
  unfold bind at 1. rewrite E, T. unfold bind at 1. unfold ret at 1.
  unfold Name_return. rewrite D. change (negb false) with true. cbv iota.
  assert (S : sends h s1 = true).
  { unfold sends, Validate.params_of. subst s1. destruct s0; simpl.
    unfold JsObj.read. simpl. rewrite String.eqb_refl.
    destruct str; [congruence | reflexivity]. }
  unfold bind at 1. rewrite (Run_sends h (silent options) s1 S).
  unfold ret. f_equal. unfold loading_reports, request, Validate.params_of.
  subst s1 s0. destruct s; simpl in *.
  unfold JsObj.read. simpl. rewrite String.eqb_refl.
  destruct str; [congruence | reflexivity].
Qed.

Lemma Name_of_a_remote_field_sends_one_request_witness :
  getValuesByName signup "email" VUndef = VStr "a@b.com"
  /\ JsObj.get (remote (email_rules signup)) "email"
     = Some [mkRule no_options None true]
  /\ JsObj.get (local (email_rules signup)) "email"
     = Some [presence_rule]
  /\ Validate.Name signup "email" no_name_options (email_rules signup)
     = (Ret (VBool false),
        with_trace
          [EvEffect "email" VUndef (Some (loading, VStr ""));
           EvSend "http://example.com/validate?email=a%40b.com"]
          (email_rules signup)).
Proof.
  assert (P : Forall (enqueues_only (VStr "a@b.com"))
                [mkRule no_options None true]).
  { constructor; [|constructor]. repeat split. }
  split; [reflexivity|]. split; [reflexivity|]. split; [reflexivity|].
  exact (Name_of_a_remote_field_sends_one_request signup "email"
           no_name_options (email_rules signup) [mkRule no_options None true]
           "a@b.com" eq_refl ltac:(discriminate) eq_refl eq_refl eq_refl
           ltac:(discriminate) P eq_refl).
Defined.

(** ** [Validates.Length] *)

Lemma length_of_string (s : string) :
  Validates.length_of (VStr s) = Some (Z.of_nat (String.length s)).
Proof. destruct s; reflexivity. Qed.

Ltac bounds_cases v :=
  destruct (inOption v) eqn:?; simpl in *;
  destruct (within v) eqn:?; simpl in *;
  destruct (opt_in v) eqn:?; simpl in *.

Lemma Length_bounds_messages (v : Options) :
  wrongLength (Validates.Length_bounds v) = wrongLength v
  /\ tooShort (Validates.Length_bounds v) = tooShort v
  /\ tooLong (Validates.Length_bounds v) = tooLong v
  /\ message (Validates.Length_bounds v) = message v.
Proof.
  unfold Validates.Length_bounds. bounds_cases v;
    try destruct (Validates.num_truthy (opt_is v)); repeat split.
Qed.

Lemma Length_bounds_bounded (v : Options) (lo hi : Z) :
  bounded v lo hi ->
  minimum (Validates.Length_bounds v) = Some lo
  /\ maximum (Validates.Length_bounds v) = Some hi.
Proof.
  unfold bounded, range_of, Validates.Length_bounds.
  intros [(range & R & L & H)|(R & I & N & ->)].
  - bounds_cases v; inversion R; subst; auto.
  - bounds_cases v; try discriminate.
    rewrite I. simpl. destruct (Z.eqb_spec lo 0); [contradiction|]. auto.
Qed.

Lemma Length_bounds_unbounded (v : Options) :
  unbounded v ->
  minimum (Validates.Length_bounds v) = None
  /\ maximum (Validates.Length_bounds v) = None.
Proof.
  unfold unbounded, range_of, Validates.Length_bounds.
  intros (R & I & Lo & Hi).
  bounds_cases v; try discriminate.
  rewrite I. auto.
Qed.

(** X14.  The bounds of [Validates.Length] are inclusive.  When the options
    give a range ([within], else [inOption], else ["in"]; its first and last
    elements) or an exact length [is] other than zero, and the upper bound is
    not zero (or both are), a string passes exactly when its length lies
    between the two bounds, whatever [minimum] and [maximum] the options
    also held.  With equal bounds a string of another length is told it has
    the wrong length, never that it is too short or too long. *)
Theorem Length_bounds_are_inclusive (v : Options) (lo hi : Z) (s : string) :
  bounded v lo hi ->
  (hi <> 0 \/ lo = 0)%Z ->
  (Validates.Length_validate (Validates.Length_bounds v) (VStr s) = Ret VUndef
   <-> (lo <= Z.of_nat (String.length s) <= hi)%Z)
  /\ (lo = hi -> Z.of_nat (String.length s) <> lo ->
      Validates.Length_validate (Validates.Length_bounds v) (VStr s)
      = Ret (VStr (replace_pct_d (string_of_Z lo)
                     (Validates.first_message (wrongLength v) (message v)
                        (Validates.default_message "wrongLength"))))).
Proof.
  intros B Z0.
  destruct (Length_bounds_bounded v lo hi B) as [Lo Hi].
  destruct (Length_bounds_messages v) as (W & S & L & M).
  unfold Validates.Length_validate.
  rewrite Lo, Hi, W, S, L, M, length_of_string.
  unfold Validates.num_eq, Validates.num_lt, Validates.num_truthy,
    Validates.num_string.
  generalize (Validates.first_message (wrongLength v) (message v)
                (Validates.default_message "wrongLength")).
  generalize (Validates.first_message (tooShort v) (message v)
                (Validates.default_message "tooShort")).
  generalize (Validates.first_message (tooLong v) (message v)
                (Validates.default_message "tooLong")).
  intros ml ms mw.
  generalize (Z.of_nat (String.length s)). intros n.
  destruct (Z.eqb_spec lo hi) as [E|E];
    destruct (Z.eqb_spec n lo) as [F|F];
    destruct (Z.ltb_spec n lo) as [G|G];
    destruct (Z.eqb_spec hi 0) as [K|K];
    destruct (Z.ltb_spec hi n) as [J|J]; cbn [andb negb];
    (split; [split; [intros Q; first [discriminate Q | lia]
                    | intros Q; first [exfalso; lia | reflexivity]]
            | intros P1 P2; first [exfalso; lia | reflexivity]]).
Qed.

Lemma Length_bounds_are_inclusive_witness :
  bounded within_2_4 2 4
  /\ (Validates.Length_validate (Validates.Length_bounds within_2_4)
        (VStr "four") = Ret VUndef
      <-> (2 <= Z.of_nat (String.length "four") <= 4)%Z).
Proof.
  assert (B : bounded within_2_4 2 4).
  { left. exists [2; 4]%Z. repeat split. }
  assert (N : (4 <> 0 \/ 2 = 0)%Z) by (left; discriminate).
  split; [exact B|].
  exact (proj1 (Length_bounds_are_inclusive within_2_4 2 4 "four" B N)).
Defined.

(** X15.  [Validates.Length] without a bound rejects every string.  When the
    options give no range, no [minimum] and no [maximum], and [is] is absent
    or zero, both bounds are [undefined], which are equal to each other and
    not to any length: every string, the empty one too, is answered with the
    wrong-length message, by default "is the wrong length (should be
    undefined characters)". *)
Theorem Length_without_bounds_rejects_every_string (v : Options)
    (s : string) :
  unbounded v ->
  Validates.Length_validate (Validates.Length_bounds v) (VStr s)
  = Ret (VStr (replace_pct_d "undefined"
                 (Validates.first_message (wrongLength v) (message v)
                    (Validates.default_message "wrongLength"))))
  /\ (wrongLength v = None -> message v = None ->
      Validates.Length_validate (Validates.Length_bounds v) (VStr s)
      = Ret (VStr "is the wrong length (should be undefined characters)")).
Proof.
  intros U.
  destruct (Length_bounds_unbounded v U) as [Lo Hi].
  destruct (Length_bounds_messages v) as (W & _ & _ & M).
  unfold Validates.Length_validate.
  rewrite Lo, Hi, W, M, length_of_string. simpl.
  split; [reflexivity|]. intros -> ->. reflexivity.
Qed.

Lemma Length_without_bounds_rejects_every_string_witness :
  unbounded no_options
  /\ Validates.Length_validate (Validates.Length_bounds no_options) (VStr "")
     = Ret (VStr "is the wrong length (should be undefined characters)").
Proof.
  assert (U : unbounded no_options) by (repeat split).
  split; [exact U|].
  exact (proj2 (Length_without_bounds_rejects_every_string no_options "" U)
           eq_refl eq_refl).
Defined.

(** ** The parameters an Ajax rule includes *)

Lemma until_eq_key (k : string) :
  no_equals k = true -> until_eq k = (k, None).
Proof.
  induction k as [|c k IH]; simpl; [reflexivity|].
  intros H. apply andb_true_iff in H. destruct H as [C K].
  apply negb_true_iff in C. rewrite C, (IH K). reflexivity.
Qed.

Lemma until_eq_pair (k r : string) :
  no_equals k = true -> until_eq (k ++ "=" ++ r) = (k, Some r).
Proof.
  induction k as [|c k IH]; simpl; [reflexivity|].
  intros H. apply andb_true_iff in H. destruct H as [C K].
  apply negb_true_iff in C. rewrite C. simpl in IH. rewrite (IH K).
  reflexivity.
Qed.

(** X16.  An [include] of an Ajax rule that names no control with a value
    is read as a pair: ["k=v"] puts [v] under [k] in the queue, and whatever
    follows a second [=] is dropped; an include without [=] puts
    [undefined] under its own name.  An include that names a control with a
    value puts that value under the include's name. *)
Theorem include_is_a_field_or_a_pair (h : Host) (v : Rule) (incl : string)
    (s : State) :
  pushParameters v = true ->
  include (props v) = [incl] ->
  incl <> "" ->
  (truthy (getValuesByName h incl VUndef) = true ->
   Validate.call_pushParameters h v s
   = (Ret tt,
      with_queue (JsObj.set (queue s) incl (getValuesByName h incl VUndef)) s))
  /\ (truthy (getValuesByName h incl VUndef) = false ->
      (no_equals incl = true ->
       Validate.call_pushParameters h v s
       = (Ret tt, with_queue (JsObj.set (queue s) incl VUndef) s))
      /\ (forall k x rest,
            no_equals k = true -> no_equals x = true ->
            incl = (k ++ "=" ++ x)%string
            \/ incl = (k ++ "=" ++ x ++ "=" ++ rest)%string ->
            Validate.call_pushParameters h v s
            = (Ret tt, with_queue (JsObj.set (queue s) k (VStr x)) s))).
Proof.
  intros P I N.
  assert (E : (incl =? "") = false) by now apply String.eqb_neq.
  unfold Validate.call_pushParameters. rewrite P, I. simpl. rewrite E.
  split; [intros T; rewrite T; reflexivity|].
  intros T. rewrite T. unfold split_pair. split.
  - intros K. rewrite (until_eq_key incl K). reflexivity.
  - intros k x rest K X Q.
    destruct Q as [Q | Q]; rewrite Q.
    + pose proof (until_eq_pair k x K) as U. simpl in U. rewrite U.
      rewrite (until_eq_key x X). reflexivity.
    + pose proof (until_eq_pair k (x ++ "=" ++ rest) K) as U.
      pose proof (until_eq_pair x rest X) as U'.
      simpl in U, U'. rewrite U, U'. reflexivity.
Qed.

Lemma include_is_a_field_or_a_pair_witness :
  truthy (getValuesByName only_email "email" VUndef) = true
  /\ truthy (getValuesByName only_email "token=abc=x" VUndef) = false
  /\ Validate.call_pushParameters only_email
       (mkRule (mkOptions None VUndef VUndef None None None None None None
                  None None None None None None None ["email"]) None true)
       initial
     = (Ret tt, with_queue [("email", VStr "a@b.com")] initial)
  /\ Validate.call_pushParameters only_email
       (mkRule (mkOptions None VUndef VUndef None None None None None None
                  None None None None None None None ["token=abc=x"]) None true)
       initial
     = (Ret tt, with_queue [("token", VStr "abc")] initial).
Proof.
  assert (N : "email" <> "") by discriminate.
  split; [reflexivity|]. split; [reflexivity|]. split.
  - exact (proj1 (include_is_a_field_or_a_pair only_email
                    (mkRule (mkOptions None VUndef VUndef None None None None
                               None None None None None None None None None
                               ["email"]) None true)
                    "email" initial eq_refl eq_refl N)
             eq_refl).
  - reflexivity.
Defined.

(** ** One rule, from registration to verdict *)

Lemma guard_unguarded (h : Host) (v : Rule) (name : string) (value : jsval)
    (s : State) :
  unguarded (props v) -> Validate.guard h v name value s = (Ret None, s).
Proof.
  intros (B & N & I & U). unfold Validate.guard.
  rewrite !strict_true_and, B, N, I, U. reflexivity.
Qed.

Lemma Custom_registers (h : Host) (name : string) (options : option Options)
    (defaultMessage : option string) (f : Options -> jsval -> outcome jsval)
    (s : State) :
  (name =? "") = false ->
  Validates.Custom h [name] options defaultMessage f s
  = (Ret tt,
     with_local
       (JsObj.set (local s) (extractName h name)
          (rules_of (local s) (extractName h name)
           ++ [mkRule (configured options defaultMessage)
                 (Some (f (configured options defaultMessage))) false])) s).
Proof.
  intros N. unfold Validates.Custom, Validation, configured.
  destruct options; simpl; rewrite N; reflexivity.
Qed.

Lemma to_array_not_empty (e : jsval) : e <> VArr [] -> to_array e <> [].
Proof. destruct e as [| | | | |l|]; simpl; try discriminate. congruence. Qed.

(** A field's first rule, registered by the extension formula and not
    guarded, decides what [Validate.Name] returns. *)
Lemma one_rule_decides (h : Host) (name : string) (nopt : NameOptions)
    (options : option Options) (defaultMessage : option string)
    (f : Options -> jsval -> outcome jsval) (s : State) (str : string)
    (e : jsval) :
  name <> "" ->
  truthy (defer nopt) = false ->
  getValuesByName h (extractName h name) (scope nopt) = VStr str ->
  JsObj.get (local s) (extractName h name) = None ->
  JsObj.get (remote s) (extractName h name) = None ->
  sends h s = false ->
  parseResponse (js_or (JsObj.read (validMessages s) (extractName h name))
                   (validMessage s)) = valid ->
  unguarded (configured options defaultMessage) ->
  f (configured options defaultMessage) (VStr str) = Ret e ->
  e <> VArr [] ->
  fst (Validate.Name h name nopt
         (snd (Validates.Custom h [name] options defaultMessage f s)))
  = Ret (VBool (negb (truthy e))).
Proof.
  intros N D V HL HR S VM G F NE.
  apply String.eqb_neq in N. rewrite (Custom_registers h _ _ _ _ s N).
  set (name' := extractName h name) in *.
  set (o := configured options defaultMessage) in *.
  set (rule := mkRule o (Some (f o)) false).
  unfold rules_of. rewrite HL. simpl app. simpl snd.
  set (s1 := with_local (JsObj.set (local s) name' [rule]) s).
  assert (W : verdict h s1 name' (VStr str) rule
              = Ret (if truthy e then to_array e else [])).
  { unfold verdict. rewrite (guard_unguarded h rule name' (VStr str) s1 G).
    simpl. now rewrite F. }
  destruct (Name_local_only h name nopt s1 [rule]
              [if truthy e then to_array e else []]) as (r & s' & E & _ & A & _).
  - fold name'. now rewrite V.
  - exact D.
  - fold name'. subst s1. destruct s; exact HR.
  - fold name'. subst s1. destruct s; simpl. apply get_set_same.
  - fold name'. rewrite V. constructor; [exact W | constructor].
  - subst s1. destruct s; exact S.
  - rewrite E. simpl fst. f_equal. f_equal. fold name' in A. rewrite A.
    + simpl List.concat. rewrite app_nil_r.
      destruct (truthy e); [|reflexivity].
      pose proof (to_array_not_empty e NE).
      destruct (to_array e); [congruence | reflexivity].
    + subst s1. destruct s; exact VM.
Qed.

(** X17.  From registration to verdict, for the two kinds that are the
    extension formula with a default message.  On a field with no rule yet
    and a string value, while nothing waits in the queue and the valid
    message is one that [parseResponse] classifies as valid:
    after [Validates.Presence(name)], [Validate(name)] returns [true]
    exactly when the value is not blank; after
    [Validates.Format(name, { "with": re })], with no message of its own and
    no guard, it returns what [re.test(value)] does. *)
Theorem Presence_and_Format_decide_a_field (h : Host) (name : string)
    (nopt : NameOptions) (s : State) (str : string) :
  name <> "" ->
  truthy (defer nopt) = false ->
  getValuesByName h (extractName h name) (scope nopt) = VStr str ->
  JsObj.get (local s) (extractName h name) = None ->
  JsObj.get (remote s) (extractName h name) = None ->
  sends h s = false ->
  parseResponse (js_or (JsObj.read (validMessages s) (extractName h name))
                   (validMessage s)) = valid ->
  fst (Validate.Name h name nopt (snd (Validates.Presence h [name] None s)))
  = Ret (VBool (negb (blank str)))
  /\ (forall o re,
        opt_with o = Some re -> message o = None -> unguarded o ->
        fst (Validate.Name h name nopt
               (snd (Validates.Format h [name] (Some o) s)))
        = Ret (VBool (re str))).
Proof.
  intros N D V HL HR S VM. split.
  - change (Validates.Presence h [name] None)
      with (Validates.Custom h [name] None (Some "blank")
              Validates.Presence_validate).
    destruct (blank str) eqn:B.
    + rewrite (one_rule_decides h name nopt None (Some "blank")
                 Validates.Presence_validate s str (VStr "can't be blank"));
        auto; try discriminate.
      * repeat split.
      * unfold Validates.Presence_validate.
        replace (toString (js_or (VStr str) (VStr ""))) with str
          by (destruct str; reflexivity).
        rewrite B. reflexivity.
    + rewrite (one_rule_decides h name nopt None (Some "blank")
                 Validates.Presence_validate s str VUndef);
        auto; try discriminate.
      * repeat split.
      * unfold Validates.Presence_validate.
        replace (toString (js_or (VStr str) (VStr ""))) with str
          by (destruct str; reflexivity).
        rewrite B. reflexivity.
  - intros o re W M G.
    change (Validates.Format h [name] (Some o))
      with (Validates.Custom h [name] (Some o) (Some "invalid")
              Validates.Format_validate).
    assert (C : configured (Some o) (Some "invalid")
                = set_message (Some "is invalid") o).
    { unfold configured. rewrite M. reflexivity. }
    destruct (re str) eqn:B.
    + rewrite (one_rule_decides h name nopt (Some o) (Some "invalid")
                 Validates.Format_validate s str VUndef);
        auto; try discriminate.
      * rewrite C. exact G.
      * rewrite C. unfold Validates.Format_validate. simpl. rewrite W.
        simpl. now rewrite B.
    + rewrite (one_rule_decides h name nopt (Some o) (Some "invalid")
                 Validates.Format_validate s str (VStr "is invalid"));
        auto; try discriminate.
      * rewrite C. exact G.
      * rewrite C. unfold Validates.Format_validate. simpl. rewrite W.
        simpl. now rewrite B.
Qed.

Lemma Presence_and_Format_decide_a_field_witness :
  getValuesByName only_email "email" VUndef = VStr "a@b.com"
  /\ sends only_email initial = false
  /\ unguarded with_at
  /\ fst (Validate.Name only_email "email" no_name_options
            (snd (Validates.Presence only_email ["email"] None initial)))
     = Ret (VBool true)
  /\ fst (Validate.Name only_email "email" no_name_options
            (format_on_email only_email))
     = Ret (VBool true).
Proof.
  assert (N : "email" <> "") by discriminate.
  assert (U : unguarded with_at) by (repeat split).
  split; [reflexivity|]. split; [reflexivity|]. split; [exact U|].
  split.
  - exact (proj1 (Presence_and_Format_decide_a_field only_email "email"
                    no_name_options initial "a@b.com" N eq_refl eq_refl
                    eq_refl eq_refl eq_refl eq_refl)).
  - exact (proj2 (Presence_and_Format_decide_a_field only_email "email"
                    no_name_options initial "a@b.com" N eq_refl eq_refl
                    eq_refl eq_refl eq_refl eq_refl)
             with_at has_at eq_refl eq_refl U).
Defined.

(** ** The deferred call *)

Lemma Queue_local_unseen (h : Host) (name : string) (value : jsval) :
  keeps unseen (Validate.Queue h reg_local name value).
Proof.
  apply (Queue_local_keeps h unseen);
    first [ apply unseen_refl | exact unseen_trans
          | exact emit_unseen | apply set_response_unseen ].
Qed.

Lemma Queue_remote_unseen (h : Host) (name : string) (value : jsval) :
  keeps unseen (Validate.Queue h reg_remote name value).
Proof.
  apply (Queue_remote_keeps h unseen);
    first [ apply unseen_refl | exact unseen_trans
          | exact emit_unseen | apply set_queue_unseen ].
Qed.

Lemma deferred_Name_unseen (h : Host) (name : string) (options : NameOptions) :
  truthy (defer options) = true ->
  keeps unseen (Validate.Name h name options).
Proof.
  intros D. unfold Validate.Name. rewrite D.
  change (negb true) with false. cbv iota.
  frame_with unseen_refl unseen_trans
    ltac:(first [ apply Queue_local_unseen | apply Queue_remote_unseen ]).
Qed.

(** X18.  A deferred call only dispatches.  [Validate.Name] with [defer]
    set calls no presenter and sends no request, whether it returns or
    throws; and when it returns on a field that has a value and a name, what
    it returns is the field's entry in the response map as the call leaves
    it. *)
Theorem deferred_Name_only_dispatches (h : Host) (name : string)
    (options : NameOptions) (s : State) :
  truthy (defer options) = true ->
  unseen s (snd (Validate.Name h name options s))
  /\ (forall x,
        fst (Validate.Name h name options s) = Ret x ->
        eq_undefined (getValuesByName h (extractName h name) (scope options))
        = false ->
        extractName h name <> "" ->
        x = JsObj.read (response (snd (Validate.Name h name options s)))
              (extractName h name)).
Proof.
  intros D. split; [apply (deferred_Name_unseen h name options D)|].
  intros x R U N. apply String.eqb_neq in N.
  rewrite Name_unfold in * by exact U.
  unfold reset_unless_deferred in *. rewrite D in *.
  unfold Name_return in *. rewrite D in *.
  change (negb true) with false in *. cbv iota in *. rewrite N in *.
  simpl negb in *. cbv iota in *.
  unfold bind in *.
  destruct ((if truthy (only_local options) then ret VUndef
             else Validate.Queue h reg_remote (extractName h name)
                    (getValuesByName h (extractName h name) (scope options)))
              s) as [[remote|] s1]; [|discriminate].
  destruct (truthy remote).
  - simpl in *. now inversion R.
  - destruct (Validate.Queue h reg_local (extractName h name)
                (getValuesByName h (extractName h name) (scope options)) s1)
      as [[y|] s2]; [|discriminate].
    simpl in *. now inversion R.
Qed.

Lemma deferred_Name_only_dispatches_witness :
  truthy (defer deferred) = true
  /\ unseen (presence_then_format blank_email)
       (snd (Validate.Name blank_email "email" deferred
               (presence_then_format blank_email)))
  /\ fst (Validate.Name blank_email "email" deferred
            (presence_then_format blank_email))
     = Ret (VArr [VStr "can't be blank"; VStr "is invalid"]).
Proof.
  split; [reflexivity|]. split.
  - exact (proj1 (deferred_Name_only_dispatches blank_email "email" deferred
                    (presence_then_format blank_email) eq_refl)).
  - reflexivity.
Defined.

(** ** The form scope and the validation span *)

Lemma values_elsewhere (len : nat) (els : list Dom.Element) :
  flat_map (Dom.values_of Dom.scope_elsewhere len) els = [].
Proof. induction els as [|el els IH]; simpl; auto. Qed.

(** X19.  The [form] argument of [getValuesByName] only narrows: the values
    read in a scope are among the values read without one.  The id of no
    element (the empty string too) is no scope at all, and the controls of
    every form are read; a truthy value that is neither a string nor a form
    of the document leaves nothing to read, and the field has no value. *)
Theorem a_scope_only_narrows (doc : Dom.Document) (name : string) :
  (forall form,
     incl (field_values doc name form) (field_values doc name Dom.scope_none)
     /\ Dom.getValuesByName doc name form
        = match field_values doc name form with
          | [] => VUndef
          | [v] => VStr v
          | vs => VArr (map VStr vs)
          end)
  /\ (forall id, Dom.getElementById doc id = None ->
        Dom.getValuesByName doc name (Dom.scope_id id)
        = Dom.getValuesByName doc name Dom.scope_none)
  /\ Dom.getValuesByName doc name Dom.scope_elsewhere = VUndef.
Proof.
  split; [|split].
  - intros form. split.
    2:{ unfold Dom.getValuesByName. fold (field_values doc name form).
        destruct (field_values doc name form) as [|v [|w l]]; reflexivity. }
    unfold field_values. intros x I.
    apply in_flat_map in I. destruct I as (el & I & V).
    apply in_flat_map. exists el. split; [exact I|].
    unfold Dom.values_of in *. simpl.
    destruct (Dom.in_scope (Dom.resolve doc form) el); [exact V | destruct V].
  - intros id E. unfold Dom.getValuesByName, Dom.resolve. now rewrite E.
  - unfold Dom.getValuesByName, Dom.resolve. now rewrite values_elsewhere.
Qed.

(** X20.  A field that has a value has a place for its message: when
    [getValuesByName] finds a value for a name, in any scope,
    [findOrCreateValidationSpan] returns a span for it (the one of the
    page, or one it creates after the last control of that name), so on a
    document the presenter shows every report of such a field, whatever the
    response is. *)
Theorem a_field_with_a_value_has_a_span (doc : Dom.Document) (name : string)
    (form : Dom.Scope) :
  eq_undefined (Dom.getValuesByName doc name form) = false ->
  Dom.findOrCreateValidationSpan doc name = true
  /\ (forall location encodeURIComponent s response,
        Validate.Effect_span (Dom.host doc location encodeURIComponent) s
          name response
        = None -> False).
Proof.
  intros U.
  assert (F : Dom.findOrCreateValidationSpan doc name = true).
  { revert U. unfold Dom.getValuesByName, Dom.findOrCreateValidationSpan.
    destruct (Dom.getElementById doc _); [reflexivity|].
    destruct (Dom.getElementsByName doc name) as [|el els]; simpl.
    - discriminate.
    - intros _. destruct (rev els ++ [el]) eqn:E; [|reflexivity].
      now apply app_eq_nil in E. }
  split; [exact F|].
  intros location encodeURIComponent s response.
  unfold Validate.Effect_span. simpl. rewrite F. discriminate.
Qed.

Lemma a_field_with_a_value_has_a_span_witness :
  eq_undefined (Dom.getValuesByName survey "user[nick]" Dom.scope_none)
  = false
  /\ Dom.getElementById survey "user_nick_validation" = None
  /\ Dom.findOrCreateValidationSpan survey "user[nick]" = true.
Proof.
  split; [reflexivity|]. split; [reflexivity|].
  exact (proj1 (a_field_with_a_value_has_a_span survey "user[nick]"
                  Dom.scope_none eq_refl)).
Defined.
